(** * jsjson: the value/error propagation engine of [main.go]

    A shallow embedding of the [JSONValue] wrapper of package [jsjson]:
    the dynamic values it wraps, the errors it carries, path navigation
    ([Get]), the coercions ([String], [Int], [Float64], [Bool]), the
    collection projections ([Array], [Object]) and the entry points
    [Parse] and [Stringify].

    [main.go] holds the package twice: with the buffer pool and the struct
    destination of [Parse], and without them. The first is followed here;
    the methods below read the same in both.

    Go's [interface{}] becomes the inductive type [value], one constructor
    per dynamic type the package switches on. Go's [int] is the 64-bit
    signed integer, carried as a [Z]. A [float64] is an IEEE 754 binary64
    datum, carried as a [spec_float]. Strings are byte strings. A
    [map[string]interface{}] is a [gmap string value]. *)

From Stdlib Require Import ZArith Ascii String Floats.SpecFloat.
From stdpp Require Import gmap strings list fin_maps pretty.

#[local] Set Warnings "-register-all".
#[local] Open Scope Z_scope.

(** ** Data model *)

Definition float64 : Type := spec_float.

(** The two sentinel errors of [strconv]: [ErrSyntax] and [ErrRange]. *)
Inductive num_err : Type := ErrSyntax | ErrRange.

(** [value] is a Go [interface{}]; [error] is a non-nil Go [error]; the nil
    error is [None] in an [option error]. [JSONValue] is the struct
    [{data interface{}; err error}]. *)
Inductive value : Type :=
| VNil                              (* the nil interface *)
| VBool (b : bool)                  (* bool *)
| VFloat64 (f : float64)            (* float64 *)
| VInt (n : Z)                      (* int *)
| VString (s : string)              (* string *)
| VBytes (b : string)               (* []byte *)
| VSlice (l : list value)           (* []interface{} *)
| VMap (m : gmap string value)      (* map[string]interface{} *)
| VError (e : error)                (* an error passed as interface{} *)
| VJSONValue (j : JSONValue)        (* jsjson.JSONValue *)
| VOther (ty : string)              (* any other type, known by its %T name *)
with error : Type :=
| Errorf (format : string) (args : list value)      (* fmt.Errorf(format, args...) *)
| JSONError (Op : string) (Err : option error)      (* &JSONError{Op, Err} *)
| NumError (Func Num : string) (Err : num_err)      (* &strconv.NumError{Func, Num, Err} *)
| ExternalError (ty msg : string)                   (* an error of encoding/json, of type ty *)
with JSONValue : Type :=
| Build_JSONValue (data : value) (err : option error).

Definition data (j : JSONValue) : value :=
  match j with Build_JSONValue d _ => d end.

Definition err (j : JSONValue) : option error :=
  match j with Build_JSONValue _ e => e end.

#[global] Instance value_inhabited : Inhabited value := populate VNil.

(** The struct literals [JSONValue{data: d}] and [JSONValue{err: e}]. *)
Definition JSONValue_data (d : value) : JSONValue := Build_JSONValue d None.
Definition JSONValue_err (e : error) : JSONValue := Build_JSONValue VNil (Some e).

(** [len(c)] as a Go [int]. *)
Definition len {A : Type} (c : list A) : Z := Z.of_nat (length c).

(** Bounds of Go's [int] on a 64-bit platform. *)
Definition int_min : Z := - 2 ^ 63.
Definition int_max : Z := 2 ^ 63 - 1.
Definition uint64_max : Z := 2 ^ 64 - 1.

(** [e != nil] for an error [e]. *)
Definition not_nil (e : option error) : bool :=
  match e with Some _ => true | None => false end.

(** The operation tag of an error: field [Op] of a [JSONError]. *)
Definition error_Op (e : error) : option string :=
  match e with
  | JSONError Op _ => Some Op
  | _ => None
  end.

(** ** The Go standard library, as far as the package calls it *)

(** [float64] to [int] conversion, [int(v)]: the fraction is discarded
    (truncation toward zero). [float64_trunc] is the exact integer part,
    [None] for NaN and the infinities. *)
Definition float64_trunc (v : float64) : option Z :=
  match v with
  | S754_zero _ => Some 0
  | S754_finite s m e => Some (cond_Zopp s (Z.shiftl (Z.pos m) e))
  | S754_infinity _ => None
  | S754_nan => None
  end.

Definition int_representable (n : Z) : bool :=
  (int_min <=? n) && (n <=? int_max).

(** [float64(v)] for an [int] [v]: rounding to nearest even. *)
Definition float64_of_int (v : Z) : float64 :=
  binary_normalize 53 1024 v 0 false.

Definition is_digit (c : ascii) : bool :=
  (48 <=? Z.of_nat (nat_of_ascii c)) && (Z.of_nat (nat_of_ascii c) <=? 57).

Definition digit_val (c : ascii) : Z := Z.of_nat (nat_of_ascii c) - 48.

(** The digit loop of [strconv.ParseUint(s, 10, 64)]: left to right, an
    invalid byte is a syntax error, leaving the [uint64] range is a range
    error, whichever comes first. *)
Fixpoint ParseUint_loop (n : Z) (s : string) : Z * option num_err :=
  match s with
  | EmptyString => (n, None)
  | String c s' =>
      if is_digit c then
        if uint64_max / 10 + 1 <=? n then (uint64_max, Some ErrRange)
        else
          let n1 := n * 10 + digit_val c in
          if uint64_max <? n1 then (uint64_max, Some ErrRange)
          else ParseUint_loop n1 s'
      else (0, Some ErrSyntax)
  end.

(** [strconv.Atoi(s)], that is [ParseInt(s, 10, 0)] converted to [int]: an
    optional sign, then at least one decimal digit. On a range error the
    nearest bound is returned with the error. *)
Definition strconv_Atoi (s0 : string) : Z * option error :=
  let neg :=
    match s0 with
    | String c _ => Ascii.eqb c "-"
    | EmptyString => false
    end in
  let s :=
    match s0 with
    | String c r => if Ascii.eqb c "+" || Ascii.eqb c "-" then r else s0
    | EmptyString => s0
    end in
  match s with
  | EmptyString => (0, Some (NumError "Atoi" s0 ErrSyntax))
  | _ =>
      match ParseUint_loop 0 s with
      | (_, Some ErrSyntax) => (0, Some (NumError "Atoi" s0 ErrSyntax))
      | (un, _) =>
          if negb neg && (2 ^ 63 <=? un) then (int_max, Some (NumError "Atoi" s0 ErrRange))
          else if neg && (2 ^ 63 <? un) then (int_min, Some (NumError "Atoi" s0 ErrRange))
          else (if neg then - un else un, None)
      end
  end.

(** [strconv.ParseBool(str)]. *)
Definition strconv_ParseBool (str : string) : bool * option error :=
  if bool_decide (str ∈ ["1"; "t"; "T"; "TRUE"; "true"; "True"]%string) then (true, None)
  else if bool_decide (str ∈ ["0"; "f"; "F"; "FALSE"; "false"; "False"]%string) then (false, None)
  else (false, Some (NumError "ParseBool" str ErrSyntax)).

(** The services of the standard library that the package treats as black
    boxes: text rendering by [fmt], float parsing, and the JSON encoder and
    decoder of [encoding/json]. *)
Class GoStdlib : Type := {
  (* fmt's rendering of a value under %v *)
  fmt_Sprint : value -> string;
  (* strconv.Quote, fmt's rendering of a string under %q *)
  strconv_Quote : string -> string;
  (* strconv.ParseFloat(s, 64) *)
  strconv_ParseFloat : string -> float64 * option error;
  (* json.Marshal(v) *)
  json_Marshal : value -> string * option error;
  (* json.Unmarshal(b, &result) for a result of type interface{} *)
  json_Unmarshal : string -> value * option error;
  (* int(v) for a float64 whose integer part no int holds: the language
     leaves the result to the implementation *)
  int_of_unrepresentable : float64 -> Z
}.

(** [int(v)] for a [float64] [v]. *)
Definition int_of_float64 `{GoStdlib} (v : float64) : Z :=
  match float64_trunc v with
  | Some n => if int_representable n then n else int_of_unrepresentable v
  | None => int_of_unrepresentable v
  end.

(** *** Text rendering by [fmt]

    [fmt.Errorf] is kept as its format and arguments; [error_Error] below
    renders the text on demand. *)

(** The dynamic type of a value as [fmt] prints it under [%T]. *)
Definition type_name (v : value) : string :=
  match v with
  | VNil => "<nil>"
  | VBool _ => "bool"
  | VFloat64 _ => "float64"
  | VInt _ => "int"
  | VString _ => "string"
  | VBytes _ => "[]uint8"
  | VSlice _ => "[]interface {}"
  | VMap _ => "map[string]interface {}"
  | VError (Errorf _ _) => "*errors.errorString"
  | VError (JSONError _ _) => "*jsjson.JSONError"
  | VError (NumError _ _ _) => "*strconv.NumError"
  | VError (ExternalError ty _) => ty
  | VJSONValue _ => "jsjson.JSONValue"
  | VOther ty => ty
  end.

(** A value under [%v]. Floats, byte slices, slices, maps and foreign types
    are left to [fmt_Sprint]; an error prints its [Error()] text, computed
    by [on_error]. *)
Definition fmt_v `{GoStdlib} (on_error : error -> string) (a : value) : string :=
  match a with
  | VNil => "<nil>"
  | VBool true => "true"
  | VBool false => "false"
  | VInt n => pretty n
  | VString s => s
  | VError e => on_error e
  | _ => fmt_Sprint a
  end.

(** One argument under one verb. The package uses [%v], [%T], [%d] with an
    [int] and [%q] with a [string]; any other pairing prints as fmt's
    bad-verb notice. *)
Definition fmt_verb `{GoStdlib} (on_error : error -> string) (verb : ascii) (a : value) : string :=
  match verb, a with
  | "v"%char, _ => fmt_v on_error a
  | "T"%char, _ => type_name a
  | "d"%char, VInt n => pretty n
  | "q"%char, VString s => strconv_Quote s
  | _, _ => "%!" ++ String verb ("(" ++ type_name a ++ "=" ++ fmt_v on_error a ++ ")")
  end.

(** The format interpreter of [fmt.Sprintf], over arguments that are already
    closed over their rendering: each takes the verb it is printed under.
    The package passes exactly one argument per verb. *)
Fixpoint Sprintf_loop (format : string) (args : list (ascii -> string)) : string :=
  match format with
  | EmptyString => EmptyString
  | String "%" EmptyString => "%!(NOVERB)"
  | String "%" (String verb rest) =>
      match args with
      | a :: args' => a verb ++ Sprintf_loop rest args'
      | [] => "%!" ++ String verb ("(MISSING)" ++ Sprintf_loop rest [])
      end
  | String c rest => String c (Sprintf_loop rest args)
  end.

(** The [Error()] method of each error type: [fmt.Errorf]'s text,
    [JSONError.Error], [NumError.Error], and the text of a foreign error. *)
Fixpoint error_Error `{GoStdlib} (e : error) : string :=
  match e with
  | Errorf format args =>
      Sprintf_loop format (map (fun a verb => fmt_verb error_Error verb a) args)
  | JSONError Op Err =>
      "jsonjs." ++ Op ++ ": " ++
      match Err with
      | Some e' => error_Error e'
      | None => "<nil>"
      end
  | NumError Func Num Err =>
      "strconv." ++ Func ++ ": parsing " ++ strconv_Quote Num ++ ": " ++
      match Err with
      | ErrSyntax => "invalid syntax"
      | ErrRange => "value out of range"
      end
  | ExternalError _ msg => msg
  end.

(** [fmt.Sprintf(format, args...)]. *)
Definition Sprintf `{GoStdlib} (format : string) (args : list value) : string :=
  Sprintf_loop format (map (fun a verb => fmt_verb error_Error verb a) args).

(** ** Utility functions *)

(** [convertToIndex] converts various types to array index. *)
Definition convertToIndex `{GoStdlib} (key : value) : Z * option error :=
  match key with
  | VInt v => (v, None)
  | VString v => strconv_Atoi v
  | VFloat64 v => (int_of_float64 v, None)
  | _ => (0, Some (Errorf "cannot convert %T to array index" [key]))
  end.

(** ** JSONValue methods *)

Definition IsValid (j : JSONValue) : bool :=
  match err j with None => true | Some _ => false end.

Definition JSONValue_Error (j : JSONValue) : option error := err j.

(** The body of the [for i, key := range keys] loop of [Get], from position
    [i] with [current] as the current node. The element [c[idx]] is read
    only behind the guard [idx < 0 || idx >= len(c)], so the total lookup
    never falls back on its default. *)
Fixpoint Get_loop `{GoStdlib} (current : value) (i : Z) (keys : list value) : JSONValue :=
  match keys with
  | [] => JSONValue_data current
  | key :: keys' =>
      match current with
      | VNil =>
          JSONValue_err (JSONError "Get" (Some
            (Errorf "cannot access key %v on nil value at position %d" [key; VInt i])))
      | VMap c =>
          match key with
          | VString keyStr =>
              match c !! keyStr with
              | Some child => Get_loop child (i + 1) keys'
              | None =>
                  JSONValue_err (JSONError "Get" (Some
                    (Errorf "key %q not found at position %d" [VString keyStr; VInt i])))
              end
          | _ =>
              JSONValue_err (JSONError "Get" (Some
                (Errorf "key must be string for object access, got %T at position %d"
                   [key; VInt i])))
          end
      | VSlice c =>
          match convertToIndex key with
          | (_, Some e) =>
              JSONValue_err (JSONError "Get" (Some
                (Errorf "invalid array index %v at position %d: %v"
                   [key; VInt i; VError e])))
          | (idx, None) =>
              if (idx <? 0) || (len c <=? idx) then
                JSONValue_err (JSONError "Get" (Some
                  (Errorf "array index %d out of bounds (length: %d) at position %d"
                     [VInt idx; VInt (len c); VInt i])))
              else Get_loop (c !!! Z.to_nat idx) (i + 1) keys'
          end
      | _ =>
          JSONValue_err (JSONError "Get" (Some
            (Errorf "cannot access key %v on type %T at position %d"
               [key; current; VInt i])))
      end
  end.

(** [Get] allows nested access with error propagation. *)
Definition Get `{GoStdlib} (j : JSONValue) (keys : list value) : JSONValue :=
  match err j with
  | Some _ => j
  | None =>
      match keys with
      | [] => j
      | _ => Get_loop (data j) 0 keys
      end
  end.

(** [GetOr] returns the value at the given keys or the default value if not
    found/error. *)
Definition GetOr `{GoStdlib} (j : JSONValue) (defaultValue : value) (keys : list value) : value :=
  let result := Get j keys in
  match err result with
  | Some _ => defaultValue
  | None => data result
  end.

(** [Has] checks if a key path exists. *)
Definition Has `{GoStdlib} (j : JSONValue) (keys : list value) : bool :=
  IsValid (Get j keys).

(** *** Type conversion methods *)

(** [String] returns the value as string with error handling. The name
    [String] is the constructor of Rocq's strings, hence the underscore. *)
Definition String_ `{GoStdlib} (j : JSONValue) : string * option error :=
  match err j with
  | Some e => (EmptyString, Some e)
  | None =>
      match data j with
      | VString v => (v, None)
      | VNil => (EmptyString, None)
      | v => (Sprintf "%v" [v], None)
      end
  end.

(** [StringOr] returns the value as string or default if error/not string. *)
Definition StringOr `{GoStdlib} (j : JSONValue) (defaultVal : string) : string :=
  let '(s, e) := String_ j in
  if not_nil e || String.eqb s EmptyString then defaultVal else s.

(** [Int] returns the value as int. *)
Definition Int `{GoStdlib} (j : JSONValue) : Z * option error :=
  match err j with
  | Some e => (0, Some e)
  | None =>
      match data j with
      | VFloat64 v => (int_of_float64 v, None)
      | VInt v => (v, None)
      | VString v =>
          match strconv_Atoi v with
          | (i, None) => (i, None)
          | (_, Some _) =>
              (0, Some (JSONError "Int" (Some
                 (Errorf "cannot convert string %q to int" [VString v]))))
          end
      | VNil => (0, None)
      | v => (0, Some (JSONError "Int" (Some (Errorf "cannot convert %T to int" [v]))))
      end
  end.

(** [IntOr] returns the value as int or default if error/conversion fails. *)
Definition IntOr `{GoStdlib} (j : JSONValue) (defaultValue : Z) : Z :=
  match Int j with
  | (i, None) => i
  | (_, Some _) => defaultValue
  end.

(** [Float64] returns the value as float64. *)
Definition Float64 `{GoStdlib} (j : JSONValue) : float64 * option error :=
  match err j with
  | Some e => (S754_zero false, Some e)
  | None =>
      match data j with
      | VFloat64 v => (v, None)
      | VInt v => (float64_of_int v, None)
      | VString v =>
          match strconv_ParseFloat v with
          | (f, None) => (f, None)
          | (_, Some _) =>
              (S754_zero false, Some (JSONError "Float64" (Some
                 (Errorf "cannot convert string %q to float64" [VString v]))))
          end
      | VNil => (S754_zero false, None)
      | v =>
          (S754_zero false,
           Some (JSONError "Float64" (Some (Errorf "cannot convert %T to float64" [v]))))
      end
  end.

(** [Float64Or] returns the value as float64 or default if error/conversion
    fails. *)
Definition Float64Or `{GoStdlib} (j : JSONValue) (defaultValue : float64) : float64 :=
  match Float64 j with
  | (f, None) => f
  | (_, Some _) => defaultValue
  end.

(** [Bool] returns the value as bool. *)
Definition Bool `{GoStdlib} (j : JSONValue) : bool * option error :=
  match err j with
  | Some e => (false, Some e)
  | None =>
      match data j with
      | VBool v => (v, None)
      | VString v =>
          match strconv_ParseBool v with
          | (b, None) => (b, None)
          | (_, Some _) =>
              (false, Some (JSONError "Bool" (Some
                 (Errorf "cannot convert string %q to bool" [VString v]))))
          end
      | VFloat64 v => (negb (SFeqb v (S754_zero false)), None)
      | VNil => (false, None)
      | v => (false, Some (JSONError "Bool" (Some (Errorf "cannot convert %T to bool" [v]))))
      end
  end.

(** [BoolOr] returns the value as bool or default if error/conversion fails. *)
Definition BoolOr `{GoStdlib} (j : JSONValue) (defaultValue : bool) : bool :=
  match Bool j with
  | (b, None) => b
  | (_, Some _) => defaultValue
  end.

(** [Array] returns the value as [[]JSONValue] for iteration; the nil slice
    is the empty list. *)
Definition Array (j : JSONValue) : list JSONValue * option error :=
  match err j with
  | Some e => ([], Some e)
  | None =>
      match data j with
      | VSlice arr => (map JSONValue_data arr, None)
      | d =>
          ([], Some (JSONError "Array" (Some (Errorf "value is not an array, got %T" [d]))))
      end
  end.

(** [Object] returns the value as [map[string]JSONValue] for iteration; the
    nil map is the empty map. *)
Definition Object (j : JSONValue) : gmap string JSONValue * option error :=
  match err j with
  | Some e => (∅, Some e)
  | None =>
      match data j with
      | VMap obj => (JSONValue_data <$> obj, None)
      | d =>
          (∅, Some (JSONError "Object" (Some (Errorf "value is not an object, got %T" [d]))))
      end
  end.

(** [Raw] returns the underlying Go value. *)
Definition Raw (j : JSONValue) : value :=
  if not_nil (err j) then VNil else data j.

(** [j.data == nil]: the data is the nil interface. *)
Definition is_nil (v : value) : bool :=
  match v with VNil => true | _ => false end.

(** [IsNull] checks if the value is null. *)
Definition IsNull (j : JSONValue) : bool :=
  negb (not_nil (err j)) && is_nil (data j).

(** [Type] returns the JSON type as a string. *)
Definition Type_ (j : JSONValue) : string :=
  if not_nil (err j) then "error"
  else
    match data j with
    | VNil => "null"
    | VBool _ => "boolean"
    | VFloat64 _ => "number"
    | VString _ => "string"
    | VSlice _ => "array"
    | VMap _ => "object"
    | _ => "unknown"
    end.

(** ** Convenience functions *)

(** [Valid] creates a JSONValue from a Go value (no parsing). *)
Definition Valid (d : value) : JSONValue := JSONValue_data d.

(** [Invalid] creates a JSONValue with an error. *)
Definition Invalid (e : option error) : JSONValue :=
  JSONValue_err (JSONError "Invalid" e).

(** ** Core JSON API *)

(** [Parse(v)], the call without a destination: [structDest] stays nil, so
    the branches guarded by [structDest != nil] are not modelled. *)
Definition Parse `{GoStdlib} (v : value) : JSONValue :=
  let unmarshal (jsonBytes : string) : JSONValue :=
    match json_Unmarshal jsonBytes with
    | (_, Some e) => JSONValue_err (JSONError "Parse" (Some e))
    | (result, None) => JSONValue_data result
    end in
  match v with
  | VNil => JSONValue_err (JSONError "Parse" (Some (Errorf "input is nil" [])))
  | VString val =>
      if String.eqb val EmptyString
      then JSONValue_err (JSONError "Parse" (Some (Errorf "empty string" [])))
      else unmarshal val
  | VBytes val =>
      if Z.of_nat (String.length val) =? 0
      then JSONValue_err (JSONError "Parse" (Some (Errorf "empty byte slice" [])))
      else unmarshal val
  | VJSONValue val => val
  | val =>
      match json_Marshal val with
      | (_, Some marshalErr) => JSONValue_err (JSONError "Parse" (Some marshalErr))
      | (jsonBytes, None) => unmarshal jsonBytes
      end
  end.

(** A buffer from [bytesPool]. Every pooled buffer has length zero: [New]
    makes it so and [putBytesBuffer] truncates before [Put]. *)
Definition getBytesBuffer : string := EmptyString.

(** [bytesWriter.Write]: append to the buffer. *)
Definition bytesWriter_Write (buf p : string) : string := buf ++ p.

(** [json.NewEncoder(w).Encode(v)]: the encoding of [v] followed by a
    newline is written to [w]; nothing is written on error. *)
Definition Encoder_Encode `{GoStdlib} (buf : string) (v : value) : string * option error :=
  match json_Marshal v with
  | (_, Some e) => (buf, Some e)
  | (b, None) => (bytesWriter_Write buf (b ++ String "010" EmptyString), None)
  end.

(** [result[:len(result)-1]] when [result] ends in a newline, else
    [result]. *)
Fixpoint trim_newline (result : string) : string :=
  match result with
  | EmptyString => EmptyString
  | String c EmptyString => if Ascii.eqb c "010" then EmptyString else result
  | String c rest => String c (trim_newline rest)
  end.

(** [Stringify] converts a value to JSON string. *)
Definition Stringify `{GoStdlib} (v : value) : string * option error :=
  match v with
  | VNil => ("null", None)
  | _ =>
      let encode (v : value) : string * option error :=
        match Encoder_Encode getBytesBuffer v with
        | (_, Some e) => (EmptyString, Some (JSONError "Stringify" (Some e)))
        | (buffer, None) => (trim_newline buffer, None)
        end in
      match v with
      | VJSONValue jv =>
          match err jv with
          | Some e => (EmptyString, Some e)
          | None => encode (data jv)
          end
      | _ => encode v
      end
  end.

(** [MustParse] is like Parse but panics on error; [inr e] is the panic with
    value [e]. *)
Definition MustParse `{GoStdlib} (v : value) : JSONValue + error :=
  let result := Parse v in
  match err result with
  | Some e => inr e
  | None => inl result
  end.

(** [Clone] creates a deep copy of the JSONValue: the buffer is truncated,
    the data encoded into it, the trailing newline removed and the bytes
    parsed again. *)
Definition Clone `{GoStdlib} (j : JSONValue) : JSONValue :=
  match err j with
  | Some _ => j
  | None =>
      match Encoder_Encode EmptyString (data j) with
      | (_, Some e) => JSONValue_err (JSONError "Clone" (Some e))
      | (buffer, None) => Parse (VBytes (trim_newline buffer))
      end
  end.

(** ** The second copy of the package

    The copy of [main.go] without the buffer pool: [Parse] decodes inside
    each case of its type switch, [Stringify] and [Clone] call
    [json.Marshal] and use its bytes as they are. *)
Module Unpooled.

Definition Parse `{GoStdlib} (v : value) : JSONValue :=
  let after (r : value * option error) : JSONValue :=
    match r with
    | (_, Some e) => JSONValue_err (JSONError "Parse" (Some e))
    | (result, None) => JSONValue_data result
    end in
  match v with
  | VNil => JSONValue_err (JSONError "Parse" (Some (Errorf "input is nil" [])))
  | VString val =>
      if String.eqb val EmptyString
      then JSONValue_err (JSONError "Parse" (Some (Errorf "empty string" [])))
      else after (json_Unmarshal val)
  | VBytes val =>
      if Z.of_nat (String.length val) =? 0
      then JSONValue_err (JSONError "Parse" (Some (Errorf "empty byte slice" [])))
      else after (json_Unmarshal val)
  | VJSONValue val => val
  | val =>
      match json_Marshal val with
      | (_, Some marshalErr) => JSONValue_err (JSONError "Parse" (Some marshalErr))
      | (bytes, None) => after (json_Unmarshal bytes)
      end
  end.

Definition Stringify `{GoStdlib} (v : value) : string * option error :=
  match v with
  | VNil => ("null", None)
  | _ =>
      let marshal (v : value) : string * option error :=
        match json_Marshal v with
        | (_, Some e) => (EmptyString, Some (JSONError "Stringify" (Some e)))
        | (bytes, None) => (bytes, None)
        end in
      match v with
      | VJSONValue jv =>
          match err jv with
          | Some e => (EmptyString, Some e)
          | None => marshal (data jv)
          end
      | _ => marshal v
      end
  end.

Definition Clone `{GoStdlib} (j : JSONValue) : JSONValue :=
  match err j with
  | Some _ => j
  | None =>
      match json_Marshal (data j) with
      | (_, Some e) => JSONValue_err (JSONError "Clone" (Some e))
      | (bytes, None) => Parse (VBytes bytes)
      end
  end.

End Unpooled.

(** ** A small instance of the standard-library services

    Enough of [fmt], [strconv] and [encoding/json] to run the model on
    concrete inputs: the encoder covers null, booleans and ints, the decoder
    the literals [null], [true], [false] and integer literals, quoting is
    exact on printable ASCII free of quote and backslash, and [int(v)] of an
    unrepresentable float is the smallest [int], as on amd64. *)

Definition example_Marshal (v : value) : string * option error :=
  match v with
  | VNil => ("null", None)
  | VBool true => ("true", None)
  | VBool false => ("false", None)
  | VInt n => (pretty n, None)
  | _ =>
      (EmptyString,
       Some (ExternalError "*json.UnsupportedTypeError"
               ("json: unsupported type: " ++ type_name v)))
  end.

Definition example_Unmarshal (b : string) : value * option error :=
  if String.eqb b "null" then (VNil, None)
  else if String.eqb b "true" then (VBool true, None)
  else if String.eqb b "false" then (VBool false, None)
  else
    match strconv_Atoi b with
    | (n, None) => (VFloat64 (float64_of_int n), None)
    | (_, Some _) =>
        (VNil, Some (ExternalError "*json.SyntaxError" "invalid character"))
    end.

Definition example_ParseFloat (s : string) : float64 * option error :=
  match strconv_Atoi s with
  | (n, None) => (float64_of_int n, None)
  | (_, Some _) => (S754_zero false, Some (NumError "ParseFloat" s ErrSyntax))
  end.

Definition example_stdlib : GoStdlib := {|
  fmt_Sprint v := ("(" ++ type_name v ++ ")")%string;
  strconv_Quote s := String "034" (s ++ String "034" EmptyString)%string;
  strconv_ParseFloat := example_ParseFloat;
  json_Marshal := example_Marshal;
  json_Unmarshal := example_Unmarshal;
  int_of_unrepresentable _ := int_min
|}.

(** ** Notions used in the statements *)

(** A message cites position [i]: it contains the text [at position i]. *)
Definition cites_position (msg : string) (i : Z) : Prop :=
  ∃ a b : string, msg = (a ++ "at position " ++ pretty i ++ b)%string.

(** A message cites length [n]: it contains the text [(length: n)]. *)
Definition cites_length (msg : string) (n : Z) : Prop :=
  ∃ a b : string, msg = (a ++ "(length: " ++ pretty n ++ ")" ++ b)%string.

(** The value of a string of decimal digits, read after the prefix [n]. *)
Fixpoint decimal_value (n : Z) (s : string) : Z :=
  match s with
  | EmptyString => n
  | String c s' => decimal_value (n * 10 + digit_val c) s'
  end.

Fixpoint all_digits (s : string) : bool :=
  match s with
  | EmptyString => true
  | String c s' => is_digit c && all_digits s'
  end.

(** The key is of one of the three types [convertToIndex] has a case for. *)
Definition index_typed (key : value) : bool :=
  match key with
  | VInt _ | VString _ | VFloat64 _ => true
  | _ => false
  end.

(** The node a key path leads to, by plain lookup and without error
    reporting: an object is entered by a string key it holds, an array by a
    key that converts to an index within its bounds, nothing else is
    entered. *)
Fixpoint node_at `{GoStdlib} (current : value) (keys : list value) : option value :=
  match keys with
  | [] => Some current
  | key :: keys' =>
      match current, key with
      | VMap c, VString k => c !! k ≫= λ child, node_at child keys'
      | VSlice c, _ =>
          match convertToIndex key with
          | (idx, None) =>
              if idx <? 0 then None
              else c !! Z.to_nat idx ≫= λ child, node_at child keys'
          | (_, Some _) => None
          end
      | _, _ => None
      end
  end.

(** A value in failure state holds no data. *)
Definition failure_holds_no_data (j : JSONValue) : Prop :=
  err j ≠ None → data j = VNil.

(** The errors of [Get], each as a function of the position it cites: the
    six failure messages of the loop with everything but the position
    fixed. *)
Inductive Get_error_at : (Z → error) → Prop :=
| at_nil_value (key : value) :
    Get_error_at (λ i, JSONError "Get" (Some
      (Errorf "cannot access key %v on nil value at position %d" [key; VInt i])))
| at_key_not_string (key : value) :
    Get_error_at (λ i, JSONError "Get" (Some
      (Errorf "key must be string for object access, got %T at position %d"
         [key; VInt i])))
| at_key_not_found (k : string) :
    Get_error_at (λ i, JSONError "Get" (Some
      (Errorf "key %q not found at position %d" [VString k; VInt i])))
| at_invalid_index (key : value) (e : error) :
    Get_error_at (λ i, JSONError "Get" (Some
      (Errorf "invalid array index %v at position %d: %v" [key; VInt i; VError e])))
| at_out_of_bounds (idx n : Z) :
    Get_error_at (λ i, JSONError "Get" (Some
      (Errorf "array index %d out of bounds (length: %d) at position %d"
         [VInt idx; VInt n; VInt i])))
| at_scalar (key c : value) :
    Get_error_at (λ i, JSONError "Get" (Some
      (Errorf "cannot access key %v on type %T at position %d" [key; c; VInt i]))).

(** The failed value [JSONValue{err: &JSONError{Op: "Get", Err: fmt.Errorf(format, args...)}}]. *)
Abbreviation Get_failure format args :=
  (JSONValue_err (JSONError "Get" (Some (Errorf format args)))).

(** A text without its optional leading sign. *)
Definition unsigned_part (s : string) : string :=
  match s with
  | String c r => if Ascii.eqb c "+" || Ascii.eqb c "-" then r else s
  | EmptyString => s
  end.

(** The [int] that a decimal numeral denotes: the text is an optional sign
    followed by decimal digits only, at least one, and its value fits
    [int]. Any other text denotes nothing. *)
Definition int_numeral (s : string) : option Z :=
  let body := unsigned_part s in
  if String.eqb body EmptyString || negb (all_digits body) then None
  else
    let v := decimal_value 0 body in
    let n :=
      match s with
      | String c _ => if Ascii.eqb c "-" then - v else v
      | EmptyString => v
      end in
    if int_representable n then Some n else None.

(** * Properties *)

Section Properties.
Context `{GoStdlib}.

(** ** Failure state *)

Lemma Get_failed (j : JSONValue) (e : error) (keys : list value) :
  err j = Some e → Get j keys = j.
Proof. intros Hj. unfold Get. by rewrite Hj. Qed.

Lemma Get_chain_failed (j : JSONValue) (e : error) (paths : list (list value)) :
  err j = Some e → fold_left Get paths j = j.
Proof.
  intros Hj. induction paths as [|keys paths IH]; [done|].
  simpl. by rewrite (Get_failed j e keys Hj).
Qed.

(** C1: on a value in failure state, [Get] with any keys, and any chain of
    [Get] calls, returns the receiver itself, and [String], [Int],
    [Float64], [Bool], [Array] and [Object] return the receiver's error, the
    very same error value: same operation tag, same message. *)
Theorem sticky_propagation (j : JSONValue) (e : error) :
  err j = Some e →
  (∀ keys, Get j keys = j) ∧
  (∀ paths, fold_left Get paths j = j) ∧
  snd (String_ j) = Some e ∧
  snd (Int j) = Some e ∧
  snd (Float64 j) = Some e ∧
  snd (Bool j) = Some e ∧
  snd (Array j) = Some e ∧
  snd (Object j) = Some e.
Proof.
  intros Hj. split_and!.
  - intros keys. by apply Get_failed with e.
  - intros paths. by apply Get_chain_failed with e.
  - unfold String_. by rewrite Hj.
  - unfold Int. by rewrite Hj.
  - unfold Float64. by rewrite Hj.
  - unfold Bool. by rewrite Hj.
  - unfold Array. by rewrite Hj.
  - unfold Object. by rewrite Hj.
Qed.

(** ** Raw and IsNull *)

(** C10: [Raw] returns nil on every value in failure state, whatever data
    the struct holds, so a failed [Get] exposes none of the receiver's data;
    on a value in success state [Raw] returns the wrapped data. *)
Theorem Raw_spec :
  (∀ d e, Raw (Build_JSONValue d (Some e)) = VNil) ∧
  (∀ j e, err j = Some e → Raw j = VNil) ∧
  (∀ j, err j = None → Raw j = data j) ∧
  (∀ j keys, IsValid (Get j keys) = false → Raw (Get j keys) = VNil).
Proof.
  split_and!.
  - done.
  - intros j e Hj. unfold Raw. by rewrite Hj.
  - intros j Hj. unfold Raw. by rewrite Hj.
  - intros j keys. unfold IsValid, Raw. by destruct (err (Get j keys)).
Qed.

Lemma IsNull_true_iff (j : JSONValue) :
  IsNull j = true ↔ err j = None ∧ data j = VNil.
Proof.
  destruct j as [d [e|]]; destruct d; unfold IsNull; simpl;
    (split; [done || discriminate | by intros [??]]).
Qed.

Lemma Get_loop_key_present (m : gmap string value) (k : string) (child : value) (i : Z) :
  m !! k = Some child →
  Get_loop (VMap m) i [VString k] = JSONValue_data child.
Proof. intros Hk. simpl. by rewrite Hk. Qed.

Lemma Get_loop_key_absent (m : gmap string value) (k : string) (i : Z) (rest : list value) :
  m !! k = None →
  Get_loop (VMap m) i (VString k :: rest) =
  JSONValue_err (JSONError "Get" (Some
    (Errorf "key %q not found at position %d" [VString k; VInt i]))).
Proof. intros Hk. simpl. by rewrite Hk. Qed.

(** C6: [IsNull] is true exactly on a value in success state whose data is
    nil, never on a value in failure state; on an object, [Get] of a key
    bound to null is null, [Get] of an absent key is failed and not null. *)
Theorem IsNull_spec :
  (∀ j, IsNull j = true ↔ err j = None ∧ data j = VNil) ∧
  (∀ j e, err j = Some e → IsNull j = false) ∧
  (∀ (m : gmap string value) (k : string),
     m !! k = Some VNil → IsNull (Get (Valid (VMap m)) [VString k]) = true) ∧
  (∀ (m : gmap string value) (k : string),
     m !! k = None →
     IsNull (Get (Valid (VMap m)) [VString k]) = false ∧
     IsValid (Get (Valid (VMap m)) [VString k]) = false).
Proof.
  split_and!.
  - apply IsNull_true_iff.
  - intros j e Hj. unfold IsNull. by rewrite Hj.
  - intros m k Hk. unfold Get, Valid. simpl. by rewrite Hk.
  - intros m k Hk. unfold Get, Valid. simpl. by rewrite Hk.
Qed.

(** ** Parse *)

(** C9: [Parse] of a [JSONValue], without destination, is that value, data
    and error alike, in success and in failure state; hence parsing the
    result of [Parse] again changes nothing. *)
Theorem Parse_idempotent :
  (∀ j : JSONValue, Parse (VJSONValue j) = j) ∧
  (∀ x : value, Parse (VJSONValue (Parse x)) = Parse x).
Proof. split; reflexivity. Qed.

(** ** Coercions *)

Lemma StringOr_failed (j : JSONValue) (e : error) (defaultVal : string) :
  err j = Some e → StringOr j defaultVal = defaultVal.
Proof. intros Hj. unfold StringOr, String_. by rewrite Hj. Qed.

Lemma StringOr_string (j : JSONValue) (s defaultVal : string) :
  err j = None → data j = VString s →
  StringOr j defaultVal = if String.eqb s EmptyString then defaultVal else s.
Proof. intros Hj Hd. unfold StringOr, String_. by rewrite Hj, Hd. Qed.

(** C3: on a valid value wrapping the empty string, [StringOr] returns the
    default, as it does on a failed value; so [Get] of a key bound to the
    empty string and [Get] of an absent key give the same [StringOr]. A
    non-empty string is returned as it is. *)
Theorem StringOr_empty_string (defaultVal : string) :
  (∀ j, err j = None → data j = VString "" → StringOr j defaultVal = defaultVal) ∧
  (∀ j e, err j = Some e → StringOr j defaultVal = defaultVal) ∧
  (∀ (m : gmap string value) (k : string),
     m !! k = Some (VString "") →
     StringOr (Get (Valid (VMap m)) [VString k]) defaultVal = defaultVal) ∧
  (∀ (m : gmap string value) (k : string),
     m !! k = None →
     StringOr (Get (Valid (VMap m)) [VString k]) defaultVal = defaultVal) ∧
  (∀ j s, err j = None → data j = VString s → s ≠ EmptyString →
     StringOr j defaultVal = s).
Proof.
  split_and!.
  - intros j Hj Hd. by rewrite (StringOr_string j "" defaultVal Hj Hd).
  - intros j e Hj. by apply StringOr_failed with e.
  - intros m k Hk. unfold Get, Valid. simpl. rewrite Hk.
    by rewrite (StringOr_string _ "" defaultVal).
  - intros m k Hk. unfold Get, Valid. simpl. rewrite Hk.
    by eapply StringOr_failed.
  - intros j s Hj Hd Hs. rewrite (StringOr_string j s defaultVal Hj Hd).
    destruct (String.eqb_spec s EmptyString); done.
Qed.

(** C5, as the code has it: a coercion called on a failed value returns the
    receiver's error itself, so the tag is the one of the operation that
    failed first; the coercion's own name tags only the errors the coercion
    raises on a valid value ([String] raises none). *)
Theorem coercion_error_tag (j : JSONValue) :
  match err j with
  | Some e =>
      snd (String_ j) = Some e ∧ snd (Int j) = Some e ∧
      snd (Float64 j) = Some e ∧ snd (Bool j) = Some e
  | None =>
      snd (String_ j) = None ∧
      (∀ e, snd (Int j) = Some e → error_Op e = Some "Int"%string) ∧
      (∀ e, snd (Float64 j) = Some e → error_Op e = Some "Float64"%string) ∧
      (∀ e, snd (Bool j) = Some e → error_Op e = Some "Bool"%string)
  end.
Proof.
  destruct j as [d [e|]]; simpl.
  - done.
  - split_and!.
    + unfold String_; simpl. by destruct d.
    + intros e. unfold Int; simpl.
      destruct d; simpl; try (intros [= <-]; done); try done.
      destruct (strconv_Atoi s) as [i [a|]]; simpl; [by intros [= <-] | done].
    + intros e. unfold Float64; simpl.
      destruct d; simpl; try (intros [= <-]; done); try done.
      destruct (strconv_ParseFloat s) as [f [a|]]; simpl; [by intros [= <-] | done].
    + intros e. unfold Bool; simpl.
      destruct d; simpl; try (intros [= <-]; done); try done.
      destruct (strconv_ParseBool s) as [b [a|]]; simpl; [by intros [= <-] | done].
Qed.

(** ** Stringify *)

Lemma trim_newline_app (b : string) :
  trim_newline (b ++ String "010" EmptyString) = b.
Proof.
  induction b as [|c b IH]; [done|].
  simpl. rewrite IH. by destruct b.
Qed.

Lemma Encoder_Encode_ok (v : value) (b : string) :
  json_Marshal v = (b, None) →
  Encoder_Encode getBytesBuffer v = ((b ++ String "010" EmptyString)%string, None).
Proof. intros Hm. unfold Encoder_Encode. by rewrite Hm. Qed.

Lemma Encoder_Encode_fail (v : value) (b : string) (e : error) :
  json_Marshal v = (b, Some e) →
  Encoder_Encode getBytesBuffer v = (getBytesBuffer, Some e).
Proof. intros Hm. unfold Encoder_Encode. by rewrite Hm. Qed.

(** C8: [Stringify] of a failed value is that value's error with the empty
    string; of nil it is the text [null]; of a value wrapping nil it is what
    the encoder writes for nil, [null] for [encoding/json]; and an encoder
    failure on any input comes back under the tag [Stringify]. *)
Theorem Stringify_spec :
  (∀ jv e, err jv = Some e → Stringify (VJSONValue jv) = (EmptyString, Some e)) ∧
  Stringify VNil = ("null"%string, None) ∧
  (json_Marshal VNil = ("null"%string, None) →
   ∀ jv, err jv = None → data jv = VNil →
   Stringify (VJSONValue jv) = ("null"%string, None)) ∧
  (∀ jv b e, err jv = None → json_Marshal (data jv) = (b, Some e) →
   Stringify (VJSONValue jv) =
   (EmptyString, Some (JSONError "Stringify" (Some e)))) ∧
  (∀ v b e, v ≠ VNil → (∀ jv, v ≠ VJSONValue jv) →
   json_Marshal v = (b, Some e) →
   Stringify v = (EmptyString, Some (JSONError "Stringify" (Some e)))).
Proof.
  split_and!.
  - intros jv e Hj. unfold Stringify. by rewrite Hj.
  - done.
  - intros Hnull jv Hj Hd. unfold Stringify. rewrite Hj, Hd.
    rewrite (Encoder_Encode_ok VNil "null" Hnull). done.
  - intros jv b e Hj Hm. unfold Stringify. rewrite Hj.
    by rewrite (Encoder_Encode_fail _ b e Hm).
  - intros v b e Hnil Hjv Hm. unfold Stringify.
    rewrite (Encoder_Encode_fail _ b e Hm).
    destruct v; try done. by destruct (Hjv j).
Qed.

(** ** Navigation *)

Lemma len_cons {A : Type} (x : A) (l : list A) : len (x :: l) = len l + 1.
Proof. unfold len. simpl length. lia. Qed.

Lemma string_app_assoc (x y z : string) :
  ((x ++ y) ++ z = x ++ y ++ z)%string.
Proof. induction x as [|c x IH]; [done|]. exact (f_equal (String c) IH). Qed.

Lemma cites_position_here (i : Z) (b : string) :
  cites_position ("at position " ++ pretty i ++ b) i.
Proof. by exists EmptyString, b. Qed.

Lemma cites_position_cons (c : ascii) (msg : string) (i : Z) :
  cites_position msg i → cites_position (String c msg) i.
Proof. intros (a & b & ->). by exists (String c a), b. Qed.

Lemma cites_position_app (x msg : string) (i : Z) :
  cites_position msg i → cites_position (x ++ msg) i.
Proof.
  intros (a & b & ->). exists (x ++ a)%string, b.
  symmetry. apply string_app_assoc.
Qed.

Lemma cites_length_here (n : Z) (b : string) :
  cites_length ("(length: " ++ pretty n ++ ")" ++ b) n.
Proof. by exists EmptyString, b. Qed.

Lemma cites_length_cons (c : ascii) (msg : string) (n : Z) :
  cites_length msg n → cites_length (String c msg) n.
Proof. intros (a & b & ->). by exists (String c a), b. Qed.

Lemma cites_length_app (x msg : string) (n : Z) :
  cites_length msg n → cites_length (x ++ msg) n.
Proof.
  intros (a & b & ->). exists (x ++ a)%string, b.
  symmetry. apply string_app_assoc.
Qed.

(** Walks a rendered message down to the cited text. *)
Ltac find_citation :=
  repeat first
    [ apply cites_position_here | apply cites_length_here
    | apply cites_position_cons | apply cites_length_cons
    | apply cites_position_app | apply cites_length_app ].

(** One segment either moves to a child, whatever the position and the
    later segments, or fails with a [Get] error that cites the position,
    whatever the later segments. *)
Lemma Get_loop_step (c key : value) :
  (∃ child, ∀ i rest, Get_loop c i (key :: rest) = Get_loop child (i + 1) rest) ∨
  (∀ i, ∃ e,
     (∀ rest, Get_loop c i (key :: rest) = JSONValue_err e) ∧
     error_Op e = Some "Get"%string ∧
     cites_position (error_Error e) i).
Proof.
  destruct c as [| | | | | |l|m| | |];
    try (right; intros i; eexists; split_and!; [done | done | find_citation]).
  - (* []interface{} *)
    destruct (convertToIndex key) as [idx [e|]] eqn:Hidx.
    + right. intros i. eexists. split_and!.
      * intros rest. simpl. by rewrite Hidx.
      * done.
      * find_citation.
    + destruct ((idx <? 0) || (len l <=? idx)) eqn:Hb.
      * right. intros i. eexists. split_and!.
        -- intros rest. simpl. by rewrite Hidx, Hb.
        -- done.
        -- find_citation.
      * left. exists (l !!! Z.to_nat idx). intros i rest. simpl.
        by rewrite Hidx, Hb.
  - (* map[string]interface{} *)
    destruct key as [| | | |k| | | | | |];
      try (right; intros i; eexists; split_and!; [done | done | find_citation]).
    destruct (m !! k) as [child|] eqn:Hk.
    + left. exists child. intros i rest. simpl. by rewrite Hk.
    + right. intros i. eexists. split_and!.
      * intros rest. simpl. by rewrite Hk.
      * done.
      * find_citation.
Qed.

Lemma Get_loop_app (pre : list value) :
  ∀ (c : value) (i : Z) (d : value) (rest : list value),
    Get_loop c i pre = JSONValue_data d →
    Get_loop c i (pre ++ rest) = Get_loop d (i + len pre) rest.
Proof.
  induction pre as [|key pre IH]; intros c i d rest Hpre.
  - simpl in Hpre. injection Hpre as ->.
    unfold len. simpl. by rewrite Z.add_0_r.
  - destruct (Get_loop_step c key) as [[child Hchild]|Hfail].
    + rewrite Hchild in Hpre. simpl app. rewrite Hchild.
      rewrite (IH child (i + 1) d rest Hpre), len_cons.
      f_equal. lia.
    + destruct (Hfail i) as (e & He & _). by rewrite He in Hpre.
Qed.

Lemma Get_valid (j : JSONValue) (keys : list value) :
  err j = None → Get j keys = Get_loop (data j) 0 keys.
Proof.
  destruct j as [d e]. simpl. intros ->. unfold Get. simpl.
  by destruct keys.
Qed.

Lemma Get_at (j : JSONValue) (pre : list value) (c : value) (rest : list value) :
  err j = None →
  Get j pre = JSONValue_data c →
  Get j (pre ++ rest) = Get_loop c (len pre) rest.
Proof.
  intros Hj Hpre. rewrite (Get_valid j pre Hj) in Hpre.
  rewrite (Get_valid j _ Hj), (Get_loop_app pre _ 0 c rest Hpre).
  by rewrite Z.add_0_l.
Qed.

Lemma Get_loop_node_at (keys : list value) :
  ∀ (c : value) (i : Z),
    match node_at c keys with
    | Some d => Get_loop c i keys = JSONValue_data d
    | None => IsValid (Get_loop c i keys) = false
    end.
Proof.
  induction keys as [|key keys IH]; intros c i; [done|].
  destruct c as [| | | | | |l|m| | |]; try done.
  - (* []interface{} *)
    simpl. destruct (convertToIndex key) as [idx [e|]]; [done|].
    destruct (Z.ltb_spec idx 0) as [Hneg|Hpos]; [done|]. simpl.
    destruct (Z.leb_spec (len l) idx) as [Hge|Hlt].
    + rewrite lookup_ge_None_2; [done|]. unfold len in Hge. lia.
    + assert (Z.to_nat idx < length l)%nat as Hin by (unfold len in Hlt; lia).
      rewrite (list_lookup_lookup_total_lt l _ Hin). simpl. apply IH.
  - (* map[string]interface{} *)
    destruct key as [| | | |k| | | | | |]; try done.
    simpl. destruct (m !! k) as [child|]; [|done]. simpl. apply IH.
Qed.

Lemma node_at_app (pre rest : list value) :
  ∀ c, node_at c (pre ++ rest) = node_at c pre ≫= λ d, node_at d rest.
Proof.
  induction pre as [|key pre IH]; intros c; [done|].
  destruct c as [| | | | | |l|m| | |]; try done.
  - simpl. destruct (convertToIndex key) as [idx [e|]]; [done|].
    destruct (idx <? 0); [done|].
    destruct (l !! Z.to_nat idx) as [child|]; [|done]. simpl. apply IH.
  - destruct key as [| | | |k| | | | | |]; try done.
    simpl. destruct (m !! k) as [child|]; [|done]. simpl. apply IH.
Qed.

Lemma Get_node_at_Some (j : JSONValue) (keys : list value) (d : value) :
  err j = None → node_at (data j) keys = Some d → Get j keys = JSONValue_data d.
Proof.
  intros Hj Hd. rewrite (Get_valid j keys Hj).
  pose proof (Get_loop_node_at keys (data j) 0) as Hloop. by rewrite Hd in Hloop.
Qed.

Lemma Get_node_at_None (j : JSONValue) (keys : list value) :
  err j = None → node_at (data j) keys = None → IsValid (Get j keys) = false.
Proof.
  intros Hj Hd. rewrite (Get_valid j keys Hj).
  pose proof (Get_loop_node_at keys (data j) 0) as Hloop. by rewrite Hd in Hloop.
Qed.

Lemma string_app_nil_r (x : string) : (x ++ EmptyString)%string = x.
Proof. induction x as [|c x IH]; [done|]. exact (f_equal (String c) IH). Qed.

Lemma Get_loop_failure (keys : list value) :
  ∀ (c : value) (i : Z),
    IsValid (Get_loop c i keys) = false →
    ∃ pre key post d,
      keys = pre ++ key :: post ∧
      Get_loop c i pre = JSONValue_data d ∧
      IsValid (Get (Valid d) [key]) = false.
Proof.
  induction keys as [|key keys IH]; intros c i Hfail; [done|].
  destruct (Get_loop_step c key) as [[child Hchild]|Hstep].
  - rewrite Hchild in Hfail.
    destruct (IH child (i + 1) Hfail) as (pre & key' & post & d & -> & Hpre & Hkey).
    exists (key :: pre), key', post, d. split_and!; [done| |done].
    by rewrite Hchild.
  - exists [], key, keys, c. split_and!; [done|done|].
    destruct (Hstep 0) as (e & He & _).
    unfold Get, Valid. simpl err. simpl data. by rewrite He.
Qed.

Lemma node_at_of_Get_loop (keys : list value) (c d : value) (i : Z) :
  Get_loop c i keys = JSONValue_data d → node_at c keys = Some d.
Proof.
  intros Hget. pose proof (Get_loop_node_at keys c i) as Hloop.
  destruct (node_at c keys) as [d'|].
  - rewrite Hloop in Hget. by injection Hget as ->.
  - by rewrite Hget in Hloop.
Qed.

(** The text of each error of [Get], with the position where the message
    has it. *)
Lemma Get_error_texts (i : Z) (key c : value) (k : string) (idx n : Z) (e : error) :
  error_Error (JSONError "Get" (Some
    (Errorf "cannot access key %v on nil value at position %d" [key; VInt i]))) =
  ("jsonjs.Get: cannot access key " ++ fmt_v error_Error key ++
   " on nil value at position " ++ pretty i)%string ∧
  error_Error (JSONError "Get" (Some
    (Errorf "key must be string for object access, got %T at position %d"
       [key; VInt i]))) =
  ("jsonjs.Get: key must be string for object access, got " ++ type_name key ++
   " at position " ++ pretty i)%string ∧
  error_Error (JSONError "Get" (Some
    (Errorf "key %q not found at position %d" [VString k; VInt i]))) =
  ("jsonjs.Get: key " ++ strconv_Quote k ++ " not found at position " ++
   pretty i)%string ∧
  error_Error (JSONError "Get" (Some
    (Errorf "invalid array index %v at position %d: %v" [key; VInt i; VError e]))) =
  ("jsonjs.Get: invalid array index " ++ fmt_v error_Error key ++
   " at position " ++ pretty i ++ ": " ++ error_Error e)%string ∧
  error_Error (JSONError "Get" (Some
    (Errorf "array index %d out of bounds (length: %d) at position %d"
       [VInt idx; VInt n; VInt i]))) =
  ("jsonjs.Get: array index " ++ pretty idx ++ " out of bounds (length: " ++
   pretty n ++ ") at position " ++ pretty i)%string ∧
  error_Error (JSONError "Get" (Some
    (Errorf "cannot access key %v on type %T at position %d" [key; c; VInt i]))) =
  ("jsonjs.Get: cannot access key " ++ fmt_v error_Error key ++ " on type " ++
   type_name c ++ " at position " ++ pretty i)%string.
Proof.
  split_and!.
  - rewrite <- (string_app_nil_r (pretty i)). reflexivity.
  - rewrite <- (string_app_nil_r (pretty i)). reflexivity.
  - rewrite <- (string_app_nil_r (pretty i)). reflexivity.
  - transitivity ("jsonjs.Get: invalid array index " ++ fmt_v error_Error key ++
                  " at position " ++ pretty i ++ ": " ++ error_Error e ++
                  EmptyString)%string; [reflexivity|].
    by rewrite string_app_nil_r.
  - rewrite <- (string_app_nil_r (pretty i)). reflexivity.
  - rewrite <- (string_app_nil_r (pretty i)). reflexivity.
Qed.

(** C2: on a valid value, when the segments [pre] lead, by plain lookup, to
    node [c], and the next segment [key] cannot be applied to [c], [Get]
    fails with the error of that segment, whatever segments follow: the
    error is given for each way a segment fails (on null, on an object with
    a key that is not a string or not present, on an array with a key that
    does not convert or lies outside the bounds, on a scalar) and carries
    the position of [key], which the rendered text shows after [at
    position]. Every failure of [Get] on a valid value arises this way. So
    for the keys a, b, c on an object where a is present and b cannot be
    applied to its value, the error carries position 1 and is the error of
    the keys a, b. *)
Theorem Get_fail_fast :
  (∀ (j : JSONValue) (pre post : list value) (c key : value),
     err j = None →
     node_at (data j) pre = Some c →
     (c = VNil →
      Get j (pre ++ key :: post) =
      Get_failure "cannot access key %v on nil value at position %d"
        [key; VInt (len pre)]) ∧
     (∀ m, c = VMap m → (∀ k, key ≠ VString k) →
      Get j (pre ++ key :: post) =
      Get_failure "key must be string for object access, got %T at position %d"
        [key; VInt (len pre)]) ∧
     (∀ m k, c = VMap m → key = VString k → m !! k = None →
      Get j (pre ++ key :: post) =
      Get_failure "key %q not found at position %d" [VString k; VInt (len pre)]) ∧
     (∀ l idx e, c = VSlice l → convertToIndex key = (idx, Some e) →
      Get j (pre ++ key :: post) =
      Get_failure "invalid array index %v at position %d: %v"
        [key; VInt (len pre); VError e]) ∧
     (∀ l idx, c = VSlice l → convertToIndex key = (idx, None) →
      idx < 0 ∨ len l ≤ idx →
      Get j (pre ++ key :: post) =
      Get_failure "array index %d out of bounds (length: %d) at position %d"
        [VInt idx; VInt (len l); VInt (len pre)]) ∧
     (c ≠ VNil → (∀ m, c ≠ VMap m) → (∀ l, c ≠ VSlice l) →
      Get j (pre ++ key :: post) =
      Get_failure "cannot access key %v on type %T at position %d"
        [key; c; VInt (len pre)])) ∧
  (∀ (i : Z) (key c : value) (k : string) (idx n : Z) (e : error),
     error_Error (JSONError "Get" (Some
       (Errorf "cannot access key %v on nil value at position %d" [key; VInt i]))) =
     ("jsonjs.Get: cannot access key " ++ fmt_v error_Error key ++
      " on nil value at position " ++ pretty i)%string ∧
     error_Error (JSONError "Get" (Some
       (Errorf "key must be string for object access, got %T at position %d"
          [key; VInt i]))) =
     ("jsonjs.Get: key must be string for object access, got " ++ type_name key ++
      " at position " ++ pretty i)%string ∧
     error_Error (JSONError "Get" (Some
       (Errorf "key %q not found at position %d" [VString k; VInt i]))) =
     ("jsonjs.Get: key " ++ strconv_Quote k ++ " not found at position " ++
      pretty i)%string ∧
     error_Error (JSONError "Get" (Some
       (Errorf "invalid array index %v at position %d: %v"
          [key; VInt i; VError e]))) =
     ("jsonjs.Get: invalid array index " ++ fmt_v error_Error key ++
      " at position " ++ pretty i ++ ": " ++ error_Error e)%string ∧
     error_Error (JSONError "Get" (Some
       (Errorf "array index %d out of bounds (length: %d) at position %d"
          [VInt idx; VInt n; VInt i]))) =
     ("jsonjs.Get: array index " ++ pretty idx ++ " out of bounds (length: " ++
      pretty n ++ ") at position " ++ pretty i)%string ∧
     error_Error (JSONError "Get" (Some
       (Errorf "cannot access key %v on type %T at position %d"
          [key; c; VInt i]))) =
     ("jsonjs.Get: cannot access key " ++ fmt_v error_Error key ++ " on type " ++
      type_name c ++ " at position " ++ pretty i)%string) ∧
  (∀ (j : JSONValue) (keys : list value),
     err j = None →
     IsValid (Get j keys) = false →
     ∃ pre key post c,
       keys = pre ++ key :: post ∧
       node_at (data j) pre = Some c ∧
       node_at c [key] = None) ∧
  (∀ (m : gmap string value) (child : value),
     m !! "a"%string = Some child →
     (node_at child [VString "b"] = None →
      Get (Valid (VMap m)) [VString "a"; VString "b"; VString "c"] =
      Get (Valid (VMap m)) [VString "a"; VString "b"]) ∧
     (child = VNil →
      Get (Valid (VMap m)) [VString "a"; VString "b"; VString "c"] =
      Get_failure "cannot access key %v on nil value at position %d"
        [VString "b"; VInt 1]) ∧
     (∀ m', child = VMap m' → m' !! "b"%string = None →
      Get (Valid (VMap m)) [VString "a"; VString "b"; VString "c"] =
      Get_failure "key %q not found at position %d" [VString "b"; VInt 1]) ∧
     (∀ l, child = VSlice l →
      Get (Valid (VMap m)) [VString "a"; VString "b"; VString "c"] =
      Get_failure "invalid array index %v at position %d: %v"
        [VString "b"; VInt 1; VError (NumError "Atoi" "b" ErrSyntax)]) ∧
     (child ≠ VNil → (∀ m', child ≠ VMap m') → (∀ l, child ≠ VSlice l) →
      Get (Valid (VMap m)) [VString "a"; VString "b"; VString "c"] =
      Get_failure "cannot access key %v on type %T at position %d"
        [VString "b"; child; VInt 1])).
Proof.
  assert (∀ (j : JSONValue) (pre post : list value) (c key : value),
     err j = None → node_at (data j) pre = Some c →
     Get j (pre ++ key :: post) = Get_loop c (len pre) (key :: post)) as Hat.
  { intros j pre post c key Hj Hpre.
    apply Get_at; [done|]. by apply Get_node_at_Some. }
  assert (∀ (j : JSONValue) (pre post : list value) (c key : value),
     err j = None → node_at (data j) pre = Some c →
     node_at c [key] = None →
     Get j (pre ++ key :: post) = Get j (pre ++ [key])) as Hcut.
  { intros j pre post c key Hj Hpre Hkey. rewrite !(Hat j pre _ c key Hj Hpre).
    destruct (Get_loop_step c key) as [[child Hchild]|Hfail].
    - pose proof (Get_loop_node_at [key] c 0) as Hloop.
      rewrite Hkey, Hchild in Hloop. done.
    - destruct (Hfail (len pre)) as (e & He & _). by rewrite !He. }
  split_and!.
  - intros j pre post c key Hj Hpre. split_and!.
    + intros ->. by rewrite (Hat j pre post VNil key Hj Hpre).
    + intros m -> Hkey. rewrite (Hat j pre post _ key Hj Hpre).
      destruct key; try done. by destruct (Hkey s).
    + intros m k -> -> Hk. rewrite (Hat j pre post _ _ Hj Hpre).
      simpl. by rewrite Hk.
    + intros l idx e -> Hidx. rewrite (Hat j pre post _ key Hj Hpre).
      simpl. by rewrite Hidx.
    + intros l idx -> Hidx Hout. rewrite (Hat j pre post _ key Hj Hpre).
      simpl. rewrite Hidx.
      by replace ((idx <? 0) || (len l <=? idx)) with true by lia.
    + intros Hnil Hmap Hslice. rewrite (Hat j pre post c key Hj Hpre).
      destruct c; try done; [by destruct (Hslice l) | by destruct (Hmap m)].
  - intros i key c k idx n e. apply Get_error_texts.
  - intros j keys Hj Hfail. rewrite (Get_valid j keys Hj) in Hfail.
    destruct (Get_loop_failure keys (data j) 0 Hfail)
      as (pre & key & post & c & -> & Hpre & Hkey).
    exists pre, key, post, c. split_and!; [done | |].
    + by apply node_at_of_Get_loop with 0.
    + destruct (node_at c [key]) as [d|] eqn:Hd; [|done].
      by rewrite (Get_node_at_Some (Valid c) [key] d eq_refl Hd) in Hkey.
  - intros m child Ha.
    assert (node_at (data (Valid (VMap m))) [VString "a"] = Some child) as Hpre.
    { simpl. by rewrite Ha. }
    assert (Get (Valid (VMap m)) [VString "a"; VString "b"; VString "c"] =
            Get_loop child 1 [VString "b"; VString "c"]) as Habc.
    { exact (Hat (Valid (VMap m)) [VString "a"] [VString "c"] child (VString "b")
               eq_refl Hpre). }
    split_and!.
    + intros Hb.
      exact (Hcut (Valid (VMap m)) [VString "a"] [VString "c"] child (VString "b")
               eq_refl Hpre Hb).
    + intros ->. by rewrite Habc.
    + intros m' -> Hb. rewrite Habc. simpl. by rewrite Hb.
    + intros l ->. by rewrite Habc.
    + intros Hnil Hmap Hslice. rewrite Habc.
      destruct child; try done; [by destruct (Hslice l) | by destruct (Hmap m0)].
Qed.

Lemma last_lookup_total (c : list value) (x : value) :
  last c = Some x →
  0 < len c ∧ c !!! Z.to_nat (len c - 1) = x.
Proof.
  intros Hlast. rewrite last_lookup in Hlast.
  pose proof (lookup_lt_Some _ _ _ Hlast) as Hlt.
  unfold len. split; [lia|].
  apply list_lookup_total_correct.
  by replace (Z.to_nat (Z.of_nat (length c) - 1)) with (Nat.pred (length c)) by lia.
Qed.

(** C7, as the code has it: on a valid value wrapping an array of length N,
    [Get] with index N fails with a bounds error whose message cites length
    N, and, when N is at least 1, [Get] with index N-1 succeeds with the
    last element. *)
Theorem Get_index_boundary (j : JSONValue) (c : list value) :
  err j = None →
  data j = VSlice c →
  (0 < len c →
   ∃ x, last c = Some x ∧ Get j [VInt (len c - 1)] = JSONValue_data x) ∧
  ∃ e,
    Get j [VInt (len c)] = JSONValue_err e ∧
    e = JSONError "Get" (Some
          (Errorf "array index %d out of bounds (length: %d) at position %d"
             [VInt (len c); VInt (len c); VInt 0])) ∧
    cites_length (error_Error e) (len c) ∧
    error_Error e =
      ("jsonjs.Get: array index " ++ pretty (len c) ++
       " out of bounds (length: " ++ pretty (len c) ++ ") at position 0")%string.
Proof.
  intros Hj Hd. split.
  - intros Hlen.
    destruct (last c) as [x|] eqn:Hlast.
    + exists x. split; [done|].
      destruct (last_lookup_total c x Hlast) as [_ Hx].
      rewrite (Get_valid j _ Hj), Hd. simpl.
      replace ((len c - 1 <? 0) || (len c <=? len c - 1)) with false by lia.
      by rewrite Hx.
    + apply last_None in Hlast. subst c. unfold len in Hlen. simpl in Hlen. lia.
  - eexists. split_and!; [|reflexivity| |].
    + rewrite (Get_valid j _ Hj), Hd. simpl.
      by replace ((len c <? 0) || (len c <=? len c)) with true by (unfold len; lia).
    + find_citation.
    + reflexivity.
Qed.

Lemma is_digit_val (c : ascii) : is_digit c = true → 0 ≤ digit_val c ≤ 9.
Proof. unfold is_digit, digit_val. lia. Qed.

Lemma decimal_value_ge (s : string) :
  ∀ n, 0 ≤ n → all_digits s = true → n ≤ decimal_value n s.
Proof.
  induction s as [|c s IH]; intros n Hn Hs; simpl in *; [lia|].
  apply andb_prop in Hs as [Hc Hs]. apply is_digit_val in Hc.
  specialize (IH (n * 10 + digit_val c) ltac:(lia) Hs). lia.
Qed.

Lemma ParseUint_loop_digits (s : string) :
  ∀ n, 0 ≤ n → all_digits s = true → decimal_value n s ≤ uint64_max →
       ParseUint_loop n s = (decimal_value n s, None).
Proof.
  induction s as [|c s IH]; intros n Hn Hs Hmax; simpl in *; [done|].
  apply andb_prop in Hs as [Hc Hs]. rewrite Hc.
  pose proof (is_digit_val c Hc) as Hd.
  pose proof (decimal_value_ge s (n * 10 + digit_val c) ltac:(lia) Hs) as Hge.
  change uint64_max with 18446744073709551615 in *.
  change (18446744073709551615 / 10 + 1) with 1844674407370955162.
  replace (1844674407370955162 <=? n) with false by lia.
  replace (18446744073709551615 <? n * 10 + digit_val c) with false by lia.
  apply IH; [lia | done | done].
Qed.

Lemma is_digit_not_sign (c : ascii) :
  is_digit c = true → Ascii.eqb c "+" || Ascii.eqb c "-" = false.
Proof.
  intros Hc.
  destruct (Ascii.eqb_spec c "+") as [->|_]; [done|].
  by destruct (Ascii.eqb_spec c "-") as [->|_].
Qed.

Lemma strconv_Atoi_digits (s : string) :
  s ≠ EmptyString → all_digits s = true → decimal_value 0 s ≤ int_max →
  strconv_Atoi s = (decimal_value 0 s, None).
Proof.
  intros Hne Hs Hmax. destruct s as [|c s]; [done|].
  pose proof Hs as Hsc. simpl in Hsc. apply andb_prop in Hsc as [Hc _].
  unfold strconv_Atoi.
  pose proof (is_digit_not_sign c Hc) as Hsign. rewrite Hsign.
  apply orb_false_elim in Hsign as [_ ->].
  change int_max with 9223372036854775807 in Hmax.
  rewrite (ParseUint_loop_digits (String c s) 0);
    [|done|done|change uint64_max with 18446744073709551615; lia].
  set (v := decimal_value 0 (String c s)) in *.
  change (2 ^ 63) with 9223372036854775808.
  by replace (9223372036854775808 <=? v) with false by lia.
Qed.

Lemma strconv_Atoi_signed (s : string) :
  s ≠ EmptyString → all_digits s = true → decimal_value 0 s ≤ int_max →
  strconv_Atoi (String "+" s) = (decimal_value 0 s, None) ∧
  strconv_Atoi (String "-" s) = (- decimal_value 0 s, None).
Proof.
  intros Hne Hs Hmax.
  change int_max with 9223372036854775807 in Hmax.
  pose proof (ParseUint_loop_digits s 0 ltac:(done) Hs) as Hloop.
  set (v := decimal_value 0 s) in *.
  assert (ParseUint_loop 0 s = (v, None)) as Hv.
  { apply Hloop. change uint64_max with 18446744073709551615. lia. }
  assert ((9223372036854775808 <=? v) = false) as Hle by lia.
  assert ((9223372036854775808 <? v) = false) as Hlt by lia.
  unfold strconv_Atoi. change (2 ^ 63) with 9223372036854775808.
  destruct s as [|c s]; [done|].
  split; cbv beta iota zeta delta [Ascii.eqb Bool.eqb orb]; by rewrite Hv, ?Hle, ?Hlt.
Qed.

Lemma strconv_Atoi_negative (s : string) :
  s ≠ EmptyString → all_digits s = true → decimal_value 0 s ≤ 2 ^ 63 →
  strconv_Atoi (String "-" s) = (- decimal_value 0 s, None).
Proof.
  intros Hne Hs Hmax.
  pose proof (ParseUint_loop_digits s 0 ltac:(done) Hs) as Hloop.
  set (v := decimal_value 0 s) in *.
  change (2 ^ 63) with 9223372036854775808 in Hmax.
  assert (ParseUint_loop 0 s = (v, None)) as Hv.
  { apply Hloop. change uint64_max with 18446744073709551615. lia. }
  assert ((9223372036854775808 <? v) = false) as Hlt by lia.
  unfold strconv_Atoi. change (2 ^ 63) with 9223372036854775808.
  destruct s as [|c s]; [done|].
  cbv beta iota zeta delta [Ascii.eqb Bool.eqb orb negb andb]. by rewrite Hv, Hlt.
Qed.

Lemma ParseUint_loop_overflow (s : string) :
  ∀ n, 0 ≤ n ≤ uint64_max → all_digits s = true → uint64_max < decimal_value n s →
       ParseUint_loop n s = (uint64_max, Some ErrRange).
Proof.
  induction s as [|c s IH]; intros n Hn Hs Hmax; simpl in *; [lia|].
  apply andb_prop in Hs as [Hc Hs]. rewrite Hc.
  pose proof (is_digit_val c Hc) as Hd.
  change uint64_max with 18446744073709551615 in *.
  change (18446744073709551615 / 10 + 1) with 1844674407370955162.
  destruct (Z.leb_spec 1844674407370955162 n) as [_|Hcut]; [done|].
  destruct (Z.ltb_spec 18446744073709551615 (n * 10 + digit_val c)) as [_|Hfit]; [done|].
  apply IH; [lia | done | done].
Qed.

Lemma ParseUint_loop_rejects (s : string) :
  ∀ n, all_digits s = false →
       ParseUint_loop n s = (0, Some ErrSyntax) ∨
       ParseUint_loop n s = (uint64_max, Some ErrRange).
Proof.
  induction s as [|c s IH]; intros n Hs; simpl in *; [done|].
  destruct (is_digit c); [|by left]. simpl in Hs.
  destruct (uint64_max / 10 + 1 <=? n); [by right|].
  destruct (uint64_max <? n * 10 + digit_val c); [by right|].
  by apply IH.
Qed.

Lemma ParseUint_loop_syntax (ds : string) (c : ascii) (rest : string) :
  is_digit c = false →
  ∀ n, 0 ≤ n → all_digits ds = true → decimal_value n ds ≤ uint64_max →
       ParseUint_loop n (ds ++ String c rest) = (0, Some ErrSyntax).
Proof.
  intros Hc. induction ds as [|d ds IH]; intros n Hn Hs Hmax.
  - change (ParseUint_loop n (String c rest) = (0, Some ErrSyntax)).
    simpl. by rewrite Hc.
  - change (ParseUint_loop n (String d (ds ++ String c rest)) = (0, Some ErrSyntax)).
    simpl in *. apply andb_prop in Hs as [Hd Hs]. rewrite Hd.
    pose proof (is_digit_val d Hd) as Hval.
    pose proof (decimal_value_ge ds (n * 10 + digit_val d) ltac:(lia) Hs) as Hge.
    change uint64_max with 18446744073709551615 in *.
    change (18446744073709551615 / 10 + 1) with 1844674407370955162.
    replace (1844674407370955162 <=? n) with false by lia.
    replace (18446744073709551615 <? n * 10 + digit_val d) with false by lia.
    apply IH; [lia | done | done].
Qed.

(** Splits on the comparison [test] where the goal branches on it. *)
Ltac split_on test :=
  let Htest := fresh "Htest" in
  destruct test eqn:Htest; cbv beta iota.

(** The text after the sign decides [strconv.Atoi]: digits only, at least
    one, and a value within [int] give that value; anything else gives a
    [NumError]. *)
Lemma Atoi_core_numeral (s0 body : string) (neg : bool) :
  match
    (if String.eqb body EmptyString || negb (all_digits body) then None
     else
       let v := decimal_value 0 body in
       let n := if neg then - v else v in
       if int_representable n then Some n else None)
  with
  | Some n =>
      match body with
      | EmptyString => (0, Some (NumError "Atoi" s0 ErrSyntax))
      | _ =>
          match ParseUint_loop 0 body with
          | (_, Some ErrSyntax) => (0, Some (NumError "Atoi" s0 ErrSyntax))
          | (un, _) =>
              if negb neg && (2 ^ 63 <=? un)
              then (int_max, Some (NumError "Atoi" s0 ErrRange))
              else if neg && (2 ^ 63 <? un)
                   then (int_min, Some (NumError "Atoi" s0 ErrRange))
                   else (if neg then - un else un, None)
          end
      end = (n, None)
  | None =>
      ∃ v ne,
      match body with
      | EmptyString => (0, Some (NumError "Atoi" s0 ErrSyntax))
      | _ =>
          match ParseUint_loop 0 body with
          | (_, Some ErrSyntax) => (0, Some (NumError "Atoi" s0 ErrSyntax))
          | (un, _) =>
              if negb neg && (2 ^ 63 <=? un)
              then (int_max, Some (NumError "Atoi" s0 ErrRange))
              else if neg && (2 ^ 63 <? un)
                   then (int_min, Some (NumError "Atoi" s0 ErrRange))
                   else (if neg then - un else un, None)
          end
      end = (v, Some (NumError "Atoi" s0 ne))
  end.
Proof.
  destruct body as [|c b]; [by eexists _, _|].
  change (String.eqb (String c b) EmptyString) with false.
  set (body := String c b). cbv beta iota.
  change (2 ^ 63) with 9223372036854775808.
  destruct (all_digits body) eqn:Hdigits; cbv beta iota zeta delta [orb negb].
  - pose proof (decimal_value_ge body 0 ltac:(done) Hdigits) as Hge.
    set (v := decimal_value 0 body) in *.
    assert (ParseUint_loop 0 body = (v, None) ∨
            (18446744073709551615 < v ∧
             ParseUint_loop 0 body = (18446744073709551615, Some ErrRange)))
      as [Hparse|[Hbig Hparse]].
    { destruct (Z.leb_spec v 18446744073709551615) as [Hfit|Hbig].
      - left. by apply ParseUint_loop_digits.
      - right. split; [done|].
        apply (ParseUint_loop_overflow body 0); [by vm_compute | done | done]. }
    + rewrite Hparse. unfold int_representable.
      change int_min with (-9223372036854775808).
      change int_max with 9223372036854775807.
      destruct neg; cbv beta iota delta [negb andb].
      * split_on (9223372036854775808 <? v);
          split_on (-9223372036854775808 <=? - v);
          try split_on (- v <=? 9223372036854775807);
          try lia; try done; by eexists _, _.
      * split_on (9223372036854775808 <=? v);
          split_on (-9223372036854775808 <=? v);
          try split_on (v <=? 9223372036854775807);
          try lia; try done; by eexists _, _.
    + rewrite Hparse. unfold int_representable.
      change int_min with (-9223372036854775808).
      change int_max with 9223372036854775807.
      destruct neg; cbv beta iota delta [negb andb].
      * change (9223372036854775808 <? 18446744073709551615) with true.
        cbv beta iota.
        split_on (-9223372036854775808 <=? - v);
          try split_on (- v <=? 9223372036854775807);
          try lia; by eexists _, _.
      * change (9223372036854775808 <=? 18446744073709551615) with true.
        cbv beta iota.
        split_on (-9223372036854775808 <=? v);
          try split_on (v <=? 9223372036854775807);
          try lia; by eexists _, _.
  - destruct (ParseUint_loop_rejects body 0 Hdigits) as [Hparse|Hparse];
      rewrite Hparse; [by eexists _, _|].
    destruct neg; by eexists _, _.
Qed.

Lemma strconv_Atoi_numeral (s : string) :
  match int_numeral s with
  | Some n => strconv_Atoi s = (n, None)
  | None => ∃ v ne, strconv_Atoi s = (v, Some (NumError "Atoi" s ne))
  end.
Proof.
  destruct s as [|c r]; [by eexists _, _|].
  exact (Atoi_core_numeral (String c r) (unsigned_part (String c r)) (Ascii.eqb c "-")).
Qed.

Lemma strconv_Atoi_syntax (s ds : string) (c : ascii) (rest : string) :
  unsigned_part s = (ds ++ String c rest)%string →
  all_digits ds = true → is_digit c = false → decimal_value 0 ds ≤ uint64_max →
  strconv_Atoi s = (0, Some (NumError "Atoi" s ErrSyntax)).
Proof.
  intros Hbody Hds Hc Hmax.
  pose proof (ParseUint_loop_syntax ds c rest Hc 0 ltac:(done) Hds Hmax) as Hparse.
  rewrite <- Hbody in Hparse.
  assert (unsigned_part s ≠ EmptyString) as Hne.
  { rewrite Hbody. by destruct ds. }
  change (strconv_Atoi s) with
    (match unsigned_part s with
     | EmptyString => (0, Some (NumError "Atoi" s ErrSyntax))
     | _ =>
         match ParseUint_loop 0 (unsigned_part s) with
         | (_, Some ErrSyntax) => (0, Some (NumError "Atoi" s ErrSyntax))
         | (un, _) =>
             let neg :=
               match s with
               | String c _ => Ascii.eqb c "-"
               | EmptyString => false
               end in
             if negb neg && (2 ^ 63 <=? un)
             then (int_max, Some (NumError "Atoi" s ErrRange))
             else if neg && (2 ^ 63 <? un)
                  then (int_min, Some (NumError "Atoi" s ErrRange))
                  else (if neg then - un else un, None)
         end
     end).
  rewrite Hparse. by destruct (unsigned_part s).
Qed.

(** [float64_trunc] is truncation toward zero of [(-1)^s * m * 2^e]: the
    sign is kept and the magnitude is the integer part of [m * 2^e]. *)
Lemma float64_trunc_toward_zero (s : bool) (m : positive) (e n : Z) :
  float64_trunc (S754_finite s m e) = Some n →
  n = cond_Zopp s (Z.abs n) ∧
  (0 ≤ e → Z.abs n = Z.pos m * 2 ^ e) ∧
  (e < 0 → Z.abs n * 2 ^ (- e) ≤ Z.pos m < (Z.abs n + 1) * 2 ^ (- e)).
Proof.
  simpl. intros [= <-].
  assert (0 ≤ Z.shiftl (Z.pos m) e) as Hnn by (by apply Z.shiftl_nonneg).
  assert (Z.abs (cond_Zopp s (Z.shiftl (Z.pos m) e)) = Z.shiftl (Z.pos m) e) as ->.
  { destruct s; simpl; lia. }
  split_and!.
  - done.
  - intros He. by apply Z.shiftl_mul_pow2.
  - intros He. rewrite Z.shiftl_div_pow2 by lia.
    assert (0 < 2 ^ (- e)) as Hpow by (apply Z.pow_pos_nonneg; lia).
    pose proof (Z.mul_div_le (Z.pos m) (2 ^ (- e)) Hpow).
    pose proof (Z.mul_succ_div_gt (Z.pos m) (2 ^ (- e)) Hpow).
    lia.
Qed.

(** C4, as the code has it: a segment converts to an index when it is an
    [int] of any sign, a [float64] whose integer part fits [int] (the
    fraction is dropped: truncation toward zero), or a string that is a
    decimal numeral within [int]: an optional sign, then decimal digits
    only, at least one. Every other string is rejected by [strconv.Atoi],
    with its syntax error when a byte that is no digit follows digits that
    stay within 64 bits, the empty text and a lone sign included, and a key
    of any other type is a conversion failure too. On an array, a
    conversion failure makes [Get] fail with the invalid-array-index error,
    and a key that converts to a negative index makes it fail with the
    out-of-bounds error. *)
Theorem array_index_conversion :
  (∀ n, convertToIndex (VInt n) = (n, None)) ∧
  (∀ f n, float64_trunc f = Some n → int_representable n = true →
     convertToIndex (VFloat64 f) = (n, None)) ∧
  (∀ s m e n, float64_trunc (S754_finite s m e) = Some n →
     n = cond_Zopp s (Z.abs n) ∧
     (0 ≤ e → Z.abs n = Z.pos m * 2 ^ e) ∧
     (e < 0 → Z.abs n * 2 ^ (- e) ≤ Z.pos m < (Z.abs n + 1) * 2 ^ (- e))) ∧
  (∀ s,
     match int_numeral s with
     | Some n => convertToIndex (VString s) = (n, None)
     | None => ∃ v ne, convertToIndex (VString s) = (v, Some (NumError "Atoi" s ne))
     end) ∧
  (∀ s ds c rest,
     unsigned_part s = (ds ++ String c rest)%string →
     all_digits ds = true → is_digit c = false → decimal_value 0 ds ≤ uint64_max →
     convertToIndex (VString s) = (0, Some (NumError "Atoi" s ErrSyntax))) ∧
  convertToIndex (VString EmptyString) =
    (0, Some (NumError "Atoi" EmptyString ErrSyntax)) ∧
  convertToIndex (VString "-") = (0, Some (NumError "Atoi" "-" ErrSyntax)) ∧
  (∀ s, s ≠ EmptyString → all_digits s = true → decimal_value 0 s ≤ int_max →
     convertToIndex (VString s) = (decimal_value 0 s, None) ∧
     convertToIndex (VString (String "+" s)) = (decimal_value 0 s, None) ∧
     convertToIndex (VString (String "-" s)) = (- decimal_value 0 s, None)) ∧
  (∀ key, index_typed key = false →
     convertToIndex key = (0, Some (Errorf "cannot convert %T to array index" [key]))) ∧
  (∀ j pre c key idx e post,
     err j = None → Get j pre = JSONValue_data (VSlice c) →
     convertToIndex key = (idx, Some e) →
     Get j (pre ++ key :: post) =
     JSONValue_err (JSONError "Get" (Some
       (Errorf "invalid array index %v at position %d: %v"
          [key; VInt (len pre); VError e])))) ∧
  (∀ j pre c s post,
     err j = None → Get j pre = JSONValue_data (VSlice c) →
     int_numeral s = None →
     ∃ ne,
       Get j (pre ++ VString s :: post) =
       JSONValue_err (JSONError "Get" (Some
         (Errorf "invalid array index %v at position %d: %v"
            [VString s; VInt (len pre); VError (NumError "Atoi" s ne)])))) ∧
  (∀ j pre c key idx post,
     err j = None → Get j pre = JSONValue_data (VSlice c) →
     convertToIndex key = (idx, None) → idx < 0 →
     Get j (pre ++ key :: post) =
     JSONValue_err (JSONError "Get" (Some
       (Errorf "array index %d out of bounds (length: %d) at position %d"
          [VInt idx; VInt (len c); VInt (len pre)])))).
Proof.
  split_and!.
  - done.
  - intros f n Hf Hn. simpl. unfold int_of_float64. by rewrite Hf, Hn.
  - apply float64_trunc_toward_zero.
  - intros s. apply strconv_Atoi_numeral.
  - intros s ds c rest. apply strconv_Atoi_syntax.
  - done.
  - done.
  - intros s Hne Hs Hmax. simpl.
    destruct (strconv_Atoi_signed s Hne Hs Hmax) as [Hplus Hminus].
    by rewrite (strconv_Atoi_digits s Hne Hs Hmax), Hplus, Hminus.
  - intros key Hkey. by destruct key.
  - intros j pre c key idx e post Hj Hpre Hidx.
    rewrite (Get_at j pre _ _ Hj Hpre). simpl. by rewrite Hidx.
  - intros j pre c s post Hj Hpre Hs.
    pose proof (strconv_Atoi_numeral s) as Hatoi. rewrite Hs in Hatoi.
    destruct Hatoi as (v & ne & Hatoi). exists ne.
    rewrite (Get_at j pre _ _ Hj Hpre). simpl. by rewrite Hatoi.
  - intros j pre c key idx post Hj Hpre Hidx Hneg.
    rewrite (Get_at j pre _ _ Hj Hpre). simpl. rewrite Hidx.
    by replace (idx <? 0) with true by lia.
Qed.

End Properties.

(** * Further properties of the package *)

Section Further.
Context `{GoStdlib}.

(** ** Navigation as lookup *)

(** X1: on a valid value [Get] succeeds exactly on the paths that plain
    lookup can follow, and returns the node the lookup finds; on every other
    path it fails. *)
Theorem Get_refines_node_at (j : JSONValue) (keys : list value) :
  err j = None →
  (∀ d, Get j keys = JSONValue_data d ↔ node_at (data j) keys = Some d) ∧
  (IsValid (Get j keys) = false ↔ node_at (data j) keys = None).
Proof.
  intros Hj.
  destruct (node_at (data j) keys) as [d|] eqn:Hd.
  - pose proof (Get_node_at_Some j keys d Hj Hd) as Hget. split.
    + intros d'. rewrite Hget. split; [by intros [= ->] | by intros [= ->]].
    + by rewrite Hget.
  - pose proof (Get_node_at_None j keys Hj Hd) as Hget. split; [|done].
    intros d'. split; [|done]. intros Heq. by rewrite Heq in Hget.
Qed.

Lemma Get_loop_failed_app (pre : list value) :
  ∀ (c : value) (i : Z) (rest : list value),
    IsValid (Get_loop c i pre) = false →
    Get_loop c i (pre ++ rest) = Get_loop c i pre.
Proof.
  induction pre as [|key pre IH]; intros c i rest Hfail; [done|].
  destruct (Get_loop_step c key) as [[child Hchild]|Hstep].
  - simpl app. rewrite !Hchild. rewrite Hchild in Hfail. by apply IH.
  - destruct (Hstep i) as (e & He & _). simpl app. by rewrite !He.
Qed.

Lemma Get_loop_failure_no_data (keys : list value) :
  ∀ (c : value) (i : Z),
    IsValid (Get_loop c i keys) = false → data (Get_loop c i keys) = VNil.
Proof.
  induction keys as [|key keys IH]; intros c i Hfail; [done|].
  destruct (Get_loop_step c key) as [[child Hchild]|Hstep].
  - rewrite Hchild in *. by apply IH.
  - destruct (Hstep i) as (e & He & _). by rewrite He.
Qed.

Lemma Get_loop_position_irrelevant (keys : list value) (c : value) (i i' : Z) :
  IsValid (Get_loop c i keys) = IsValid (Get_loop c i' keys) ∧
  data (Get_loop c i keys) = data (Get_loop c i' keys).
Proof.
  pose proof (Get_loop_node_at keys c i) as Hi.
  pose proof (Get_loop_node_at keys c i') as Hi'.
  destruct (node_at c keys) as [d|].
  - by rewrite Hi, Hi'.
  - rewrite Hi, Hi'. split; [done|].
    by rewrite !Get_loop_failure_no_data.
Qed.

Lemma Get_prefix_failed (j : JSONValue) (pre rest : list value) :
  IsValid (Get j pre) = false → Get j (pre ++ rest) = Get j pre.
Proof.
  intros Hpre. destruct (err j) as [e|] eqn:Hj.
  - by rewrite !(Get_failed j e _ Hj).
  - rewrite !(Get_valid j _ Hj). apply Get_loop_failed_app.
    by rewrite <- (Get_valid j _ Hj).
Qed.

Lemma Get_loop_step_at (c key : value) :
  (∃ child, ∀ i rest, Get_loop c i (key :: rest) = Get_loop child (i + 1) rest) ∨
  (∃ mk, Get_error_at mk ∧
         ∀ i rest, Get_loop c i (key :: rest) = JSONValue_err (mk i)).
Proof.
  destruct c as [| | | | | |l|m| | |];
    try (right; eexists; split; [apply (at_scalar key) | done]).
  - right. eexists. split; [apply (at_nil_value key) | done].
  - (* []interface{} *)
    destruct (convertToIndex key) as [idx [e|]] eqn:Hidx.
    + right. eexists. split; [apply (at_invalid_index key e)|].
      intros i rest. simpl. by rewrite Hidx.
    + destruct ((idx <? 0) || (len l <=? idx)) eqn:Hb.
      * right. eexists. split; [apply (at_out_of_bounds idx (len l))|].
        intros i rest. simpl. by rewrite Hidx, Hb.
      * left. exists (l !!! Z.to_nat idx). intros i rest. simpl.
        by rewrite Hidx, Hb.
  - (* map[string]interface{} *)
    destruct key as [| | | |k| | | | | |];
      try (right; eexists; split; [apply at_key_not_string | done]).
    destruct (m !! k) as [child|] eqn:Hk.
    + left. exists child. intros i rest. simpl. by rewrite Hk.
    + right. eexists. split; [apply (at_key_not_found k)|].
      intros i rest. simpl. by rewrite Hk.
Qed.

Lemma Get_loop_failure_at (keys : list value) :
  ∀ (c : value) (i0 : Z),
    IsValid (Get_loop c i0 keys) = false →
    ∃ mk p, Get_error_at mk ∧ 0 ≤ p < len keys ∧
            ∀ i, Get_loop c i keys = JSONValue_err (mk (i + p)).
Proof.
  induction keys as [|key keys IH]; intros c i0 Hfail; [done|].
  destruct (Get_loop_step_at c key) as [[child Hchild]|(mk & Hmk & Hstep)].
  - rewrite Hchild in Hfail.
    destruct (IH child (i0 + 1) Hfail) as (mk & p & Hmk & Hp & Hall).
    exists mk, (p + 1). split_and!; [done | lia | rewrite len_cons; lia |].
    intros i. rewrite Hchild, Hall. do 2 f_equal. lia.
  - exists mk, 0. split_and!; [done | lia | rewrite len_cons; unfold len; lia |].
    intros i. by rewrite Hstep, Z.add_0_r.
Qed.

(** X2: a chain of two [Get] calls and one [Get] with the joined path agree:
    both are valid or both failed, with the same data; when the first part
    of the path already fails, both are that very failure; when the failure
    lies in the second part, the two errors are the same error of [Get]
    except for the position, which counts from the start of the second part
    in the chain and from the start of the whole path in the joined call. *)
Theorem Get_compose (j : JSONValue) (pre rest : list value) :
  IsValid (Get (Get j pre) rest) = IsValid (Get j (pre ++ rest)) ∧
  data (Get (Get j pre) rest) = data (Get j (pre ++ rest)) ∧
  (IsValid (Get j pre) = false →
   Get (Get j pre) rest = Get j pre ∧ Get j (pre ++ rest) = Get j pre) ∧
  (IsValid (Get j pre) = true → IsValid (Get (Get j pre) rest) = false →
   ∃ mk p, Get_error_at mk ∧ 0 ≤ p < len rest ∧
           Get (Get j pre) rest = JSONValue_err (mk p) ∧
           Get j (pre ++ rest) = JSONValue_err (mk (len pre + p))).
Proof.
  destruct (err j) as [e|] eqn:Hj.
  { repeat rewrite (Get_failed j e _ Hj). unfold IsValid. rewrite Hj. done. }
  destruct (err (Get j pre)) as [e|] eqn:Hpre.
  - (* the first part fails *)
    assert (Get j (pre ++ rest) = Get j pre) as Hall.
    { apply Get_prefix_failed. unfold IsValid. by rewrite Hpre. }
    rewrite Hall, (Get_failed _ e rest Hpre). unfold IsValid. by rewrite Hpre.
  - (* the first part leads to a node *)
    assert (Get j pre = JSONValue_data (data (Get j pre))) as Hc.
    { destruct (Get j pre) as [c e]. simpl in Hpre. by subst e. }
    rewrite (Get_at j pre _ rest Hj Hc).
    rewrite (Get_valid _ rest Hpre).
    split_and!.
    + apply Get_loop_position_irrelevant.
    + apply Get_loop_position_irrelevant.
    + unfold IsValid. by rewrite Hpre.
    + intros _ Hfail.
      destruct (Get_loop_failure_at rest _ 0 Hfail) as (mk & p & Hmk & Hp & Hall).
      exists mk, p. split_and!; [done | lia | lia | |].
      * by rewrite Hall, Z.add_0_l.
      * by rewrite Hall.
Qed.

(** X3: the paths that exist are closed under prefixes: when [Has] holds of
    a path, it holds of every initial part of it. *)
Theorem Has_prefix (j : JSONValue) (pre rest : list value) :
  Has j (pre ++ rest) = true → Has j pre = true.
Proof.
  unfold Has. intros Hall.
  destruct (IsValid (Get j pre)) eqn:Hpre; [done|].
  by rewrite (Get_prefix_failed j pre rest Hpre), Hpre in Hall.
Qed.

(** X4: on a valid value [GetOr] returns the node at the path when plain
    lookup finds one, a nil node included, and the default otherwise; on a
    failed value it returns the default. *)
Theorem GetOr_spec (j : JSONValue) (defaultValue : value) (keys : list value) :
  (err j = None →
   GetOr j defaultValue keys = default defaultValue (node_at (data j) keys)) ∧
  (err j ≠ None → GetOr j defaultValue keys = defaultValue).
Proof.
  split.
  - intros Hj. unfold GetOr.
    destruct (node_at (data j) keys) as [d|] eqn:Hd.
    + by rewrite (Get_node_at_Some j keys d Hj Hd).
    + pose proof (Get_node_at_None j keys Hj Hd) as Hfail.
      unfold IsValid in Hfail. by destruct (err (Get j keys)).
  - intros Hj. unfold GetOr. destruct (err j) as [e|] eqn:He; [|done].
    by rewrite (Get_failed j e keys He), He.
Qed.

(** ** Collections *)

Lemma Get_index_in_range (j : JSONValue) (arr : list value) (i : nat) :
  err j = None → data j = VSlice arr → (i < length arr)%nat →
  Get j [VInt (Z.of_nat i)] = JSONValue_data (arr !!! i).
Proof.
  intros Hj Hd Hi. rewrite (Get_valid j _ Hj), Hd. simpl.
  replace ((Z.of_nat i <? 0) || (len arr <=? Z.of_nat i)) with false
    by (unfold len; lia).
  by rewrite Nat2Z.id.
Qed.

(** X5: on a valid value wrapping an array, [Array] succeeds with as many
    elements as the array, and its element number [i] is the value that
    [Get] with index [i] returns, a valid one. *)
Theorem Array_elements (j : JSONValue) (arr : list value) :
  err j = None → data j = VSlice arr →
  snd (Array j) = None ∧
  length (fst (Array j)) = length arr ∧
  ∀ i : nat, (i < length arr)%nat →
    fst (Array j) !! i = Some (Get j [VInt (Z.of_nat i)]) ∧
    IsValid (Get j [VInt (Z.of_nat i)]) = true.
Proof.
  intros Hj Hd. unfold Array. rewrite Hj, Hd. simpl.
  split_and!; [done | by rewrite length_map |].
  intros i Hi. rewrite (Get_index_in_range j arr i Hj Hd Hi).
  split; [|done].
  by rewrite list_lookup_fmap, (list_lookup_lookup_total_lt arr i Hi).
Qed.

(** X6: on a valid value wrapping an object, [Object] succeeds, and its
    entry for a key is the value that [Get] with that key returns when that
    is valid; it has no entry where [Get] fails. *)
Theorem Object_entries (j : JSONValue) (obj : gmap string value) :
  err j = None → data j = VMap obj →
  snd (Object j) = None ∧
  ∀ k : string,
    fst (Object j) !! k =
    if Has j [VString k] then Some (Get j [VString k]) else None.
Proof.
  intros Hj Hd. unfold Object, Has. rewrite Hj, Hd. simpl.
  split; [done|]. intros k.
  rewrite lookup_fmap, (Get_valid j _ Hj), Hd. simpl.
  by destruct (obj !! k).
Qed.

(** X7: [Type] agrees with the other inspectors: it is [error] exactly on
    failed values, [null] exactly where [IsNull] holds, [array] exactly
    where [Array] succeeds and [object] exactly where [Object] succeeds. *)
Theorem Type_agrees (j : JSONValue) :
  (Type_ j = "error"%string ↔ IsValid j = false) ∧
  (Type_ j = "null"%string ↔ IsNull j = true) ∧
  (Type_ j = "array"%string ↔ snd (Array j) = None) ∧
  (Type_ j = "object"%string ↔ snd (Object j) = None).
Proof.
  destruct j as [d [e|]].
  - by split_and!.
  - destruct d; by split_and!.
Qed.

(** ** Defaults *)

(** X8: the default-returning accessors return the default on every failed
    value; on a valid null they differ: [IntOr], [Float64Or] and [BoolOr]
    return the zero value whatever the default, [StringOr] returns the
    default. *)
Theorem Or_defaults (j : JSONValue) (di : Z) (df : float64) (db : bool) (ds : string) :
  (err j ≠ None →
   IntOr j di = di ∧ Float64Or j df = df ∧ BoolOr j db = db ∧ StringOr j ds = ds) ∧
  (err j = None → data j = VNil →
   IntOr j di = 0 ∧ Float64Or j df = S754_zero false ∧ BoolOr j db = false ∧
   StringOr j ds = ds).
Proof.
  destruct j as [d [e|]]; simpl; split; try done.
  intros _ ->. done.
Qed.

(** ** Decimal text as a number *)

Lemma pretty_N_char_digit (x : N) :
  (x < 10)%N →
  is_digit (pretty_N_char x) = true ∧ digit_val (pretty_N_char x) = Z.of_N x.
Proof.
  intros Hx. destruct x as [|p]; [by vm_compute|].
  do 4 (try destruct p as [p|p|]); try (by vm_compute); lia.
Qed.

Lemma pretty_N_go_decimal (x : N) :
  ∀ s, all_digits s = true →
       all_digits (pretty_N_go x s) = true ∧
       decimal_value 0 (pretty_N_go x s) = decimal_value (Z.of_N x) s.
Proof.
  induction (N.lt_wf_0 x) as [x _ IH]; intros s Hs.
  assert (x = 0 ∨ 0 < x)%N as [->|Hx] by lia.
  - by rewrite pretty_N_go_0.
  - rewrite pretty_N_go_step by done.
    destruct (pretty_N_char_digit (x `mod` 10)) as [Hdigit Hval].
    { by apply N.mod_lt. }
    destruct (IH (x `div` 10)%N (N.div_lt x 10 Hx eq_refl)
                 (String (pretty_N_char (x `mod` 10)) s)) as [Hall Hdec].
    { simpl. by rewrite Hdigit, Hs. }
    split; [done|]. rewrite Hdec. simpl. rewrite Hval. f_equal.
    rewrite (N.div_mod x 10) at 3 by done. lia.
Qed.

Lemma pretty_N_go_nonempty (x : N) :
  ∀ s, s ≠ EmptyString → pretty_N_go x s ≠ EmptyString.
Proof.
  induction (N.lt_wf_0 x) as [x _ IH]; intros s Hs.
  assert (x = 0 ∨ 0 < x)%N as [->|Hx] by lia.
  - by rewrite pretty_N_go_0.
  - rewrite pretty_N_go_step by done.
    by apply IH; [apply N.div_lt|].
Qed.

Lemma pretty_positive_decimal (p : positive) :
  pretty (Z.pos p) ≠ EmptyString ∧
  all_digits (pretty (Z.pos p)) = true ∧
  decimal_value 0 (pretty (Z.pos p)) = Z.pos p.
Proof.
  change (pretty (Z.pos p)) with (pretty_N_go (N.pos p) EmptyString).
  destruct (pretty_N_go_decimal (N.pos p) EmptyString eq_refl) as [Hall Hdec].
  split_and!; [|done|by rewrite Hdec].
  rewrite pretty_N_go_step by done. by apply pretty_N_go_nonempty.
Qed.

Lemma strconv_Atoi_pretty (n : Z) :
  int_min ≤ n ≤ int_max → strconv_Atoi (pretty n) = (n, None).
Proof.
  change int_min with (-9223372036854775808).
  change int_max with 9223372036854775807.
  intros Hn. destruct n as [|p|p].
  - done.
  - destruct (pretty_positive_decimal p) as (Hne & Hall & Hdec).
    rewrite (strconv_Atoi_digits _ Hne Hall); [by rewrite Hdec|].
    rewrite Hdec. change int_max with 9223372036854775807. lia.
  - destruct (pretty_positive_decimal p) as (Hne & Hall & Hdec).
    change (pretty (Z.neg p)) with (String "-" (pretty (Z.pos p))).
    rewrite (strconv_Atoi_negative _ Hne Hall); [by rewrite Hdec|].
    rewrite Hdec. change (2 ^ 63) with 9223372036854775808. lia.
Qed.

(** X9: [Int] reads back the decimal text of every [int]: on a valid value
    wrapping the text of [n] it returns [n] without error, and so does
    [IntOr] whatever the default. *)
Theorem Int_of_decimal_text (n d : Z) :
  int_min ≤ n ≤ int_max →
  Int (Valid (VString (pretty n))) = (n, None) ∧
  IntOr (Valid (VString (pretty n))) d = n.
Proof.
  intros Hn. unfold IntOr, Int. simpl.
  by rewrite (strconv_Atoi_pretty n Hn).
Qed.

(** X10: on an array, an index may be given as an [int], as its decimal
    text or as a [float64] with that integer part: [Get] returns the same
    value, success or failure, for all three. *)
Theorem index_forms_agree (j : JSONValue) (pre post : list value)
    (c : list value) (n : Z) :
  err j = None →
  Get j pre = JSONValue_data (VSlice c) →
  int_min ≤ n ≤ int_max →
  Get j (pre ++ VString (pretty n) :: post) = Get j (pre ++ VInt n :: post) ∧
  ∀ f, float64_trunc f = Some n →
       Get j (pre ++ VFloat64 f :: post) = Get j (pre ++ VInt n :: post).
Proof.
  intros Hj Hpre Hn. split.
  - rewrite !(Get_at j pre _ _ Hj Hpre). simpl.
    by rewrite (strconv_Atoi_pretty n Hn).
  - intros f Hf. rewrite !(Get_at j pre _ _ Hj Hpre). simpl.
    unfold int_of_float64. rewrite Hf.
    replace (int_representable n) with true; [done|].
    unfold int_representable. lia.
Qed.

(** ** Encoding, cloning and parsing *)

Lemma Encoder_Encode_empty (v : value) :
  Encoder_Encode EmptyString v =
  match json_Marshal v with
  | (_, Some e) => (EmptyString, Some e)
  | (b, None) => ((b ++ String "010" EmptyString)%string, None)
  end.
Proof. unfold Encoder_Encode. by destruct (json_Marshal v) as [b [e|]]. Qed.

Lemma length_nonempty (s : string) :
  s ≠ EmptyString → (Z.of_nat (String.length s) =? 0) = false.
Proof.
  destruct s as [|c s]; [done|]. intros _.
  change (String.length (String c s)) with (S (String.length s)).
  apply Z.eqb_neq. lia.
Qed.

(** X11: the two copies of the package compute the same: writing through
    the encoder into a pooled buffer and cutting the final newline gives the
    bytes of [json.Marshal], so [Parse], [Stringify] and [Clone] of the
    first copy equal those of the second on every input. *)
Theorem copies_agree :
  (∀ v, Parse v = Unpooled.Parse v) ∧
  (∀ v, Stringify v = Unpooled.Stringify v) ∧
  (∀ j, Clone j = Unpooled.Clone j).
Proof.
  assert (∀ v, Parse v = Unpooled.Parse v) as HParse by (by intros []).
  split_and!; [exact HParse | |].
  - assert (∀ v,
      match Encoder_Encode getBytesBuffer v with
      | (_, Some e) => (EmptyString, Some (JSONError "Stringify" (Some e)))
      | (buffer, None) => (trim_newline buffer, None)
      end =
      match json_Marshal v with
      | (_, Some e) => (EmptyString, Some (JSONError "Stringify" (Some e)))
      | (bytes, None) => (bytes, None)
      end) as Hencode.
    { intros v. unfold getBytesBuffer. rewrite Encoder_Encode_empty.
      destruct (json_Marshal v) as [b [e|]]; [done|].
      by rewrite trim_newline_app. }
    intros v. unfold Stringify, Unpooled.Stringify.
    destruct v as [| | | | | | | | |jv|]; try done; try apply Hencode.
    destruct (err jv); [done|]. apply Hencode.
  - intros j. unfold Clone, Unpooled.Clone.
    destruct (err j); [done|]. rewrite Encoder_Encode_empty.
    destruct (json_Marshal (data j)) as [b [e|]]; [done|].
    by rewrite trim_newline_app, HParse.
Qed.

(** X12: [Clone] is [Parse] after [Stringify]: on a valid value, when
    [Stringify] yields a text, [Clone] is [Parse] of these bytes; when
    [Stringify] fails, its error wraps the encoder's error under the tag
    [Stringify] and [Clone] fails with the same encoder error under the tag
    [Clone]. A failed value is its own clone. *)
Theorem Clone_Parse_Stringify (j : JSONValue) :
  (err j ≠ None → Clone j = j) ∧
  (err j = None →
   match Stringify (VJSONValue j) with
   | (s, None) => Clone j = Parse (VBytes s)
   | (_, Some e) =>
       ∃ e0, e = JSONError "Stringify" (Some e0) ∧
             Clone j = JSONValue_err (JSONError "Clone" (Some e0))
   end).
Proof.
  split.
  - intros Hj. unfold Clone. by destruct (err j).
  - intros Hj. unfold Stringify, Clone, getBytesBuffer. rewrite Hj.
    rewrite Encoder_Encode_empty.
    destruct (json_Marshal (data j)) as [b [e|]]; [by exists e | done].
Qed.

(** X13: [Clone] returns what the decoder reads from the encoder's text: if
    the data of a valid value encodes to a non-empty text that decodes to
    [d], the clone is the valid value wrapping [d], the original itself when
    [d] is its data; if the text is empty, the clone fails in [Parse]. *)
Theorem Clone_round_trip (j : JSONValue) (b : string) :
  err j = None →
  json_Marshal (data j) = (b, None) →
  (b = EmptyString →
   Clone j = JSONValue_err (JSONError "Parse" (Some (Errorf "empty byte slice" [])))) ∧
  (b ≠ EmptyString →
   ∀ d, json_Unmarshal b = (d, None) →
        Clone j = JSONValue_data d ∧ (d = data j → Clone j = j)).
Proof.
  intros Hj Hb. unfold Clone. rewrite Hj, Encoder_Encode_empty, Hb.
  rewrite trim_newline_app. split.
  - by intros ->.
  - intros Hne d Hd. unfold Parse.
    rewrite (length_nonempty b Hne), Hd. split; [done|]. intros ->.
    destruct j as [dj ej]. simpl in Hj. by subst ej.
Qed.

Lemma Get_keeps_invariant (j : JSONValue) (keys : list value) :
  failure_holds_no_data j → failure_holds_no_data (Get j keys).
Proof.
  intros Hinv. destruct (err j) as [e|] eqn:Hj.
  - by rewrite (Get_failed j e keys Hj).
  - rewrite (Get_valid j keys Hj). intros Hfail.
    apply Get_loop_failure_no_data. unfold IsValid.
    by destruct (err (Get_loop (data j) 0 keys)).
Qed.

Lemma JSONValue_err_no_data (e : error) :
  failure_holds_no_data (JSONValue_err e).
Proof. by intros _. Qed.

Lemma JSONValue_data_no_failure (d : value) :
  failure_holds_no_data (JSONValue_data d).
Proof. intros Hne. by destruct Hne. Qed.

Lemma Parse_keeps_invariant (v : value) :
  (∀ j, v = VJSONValue j → failure_holds_no_data j) →
  failure_holds_no_data (Parse v).
Proof.
  intros Hv.
  assert (∀ b,
    failure_holds_no_data
      match json_Unmarshal b with
      | (_, Some e) => JSONValue_err (JSONError "Parse" (Some e))
      | (result, None) => JSONValue_data result
      end) as Hdecode.
  { intros b. destruct (json_Unmarshal b) as [r [e|]];
      [apply JSONValue_err_no_data | apply JSONValue_data_no_failure]. }
  assert (∀ val,
    failure_holds_no_data
      match json_Marshal val with
      | (_, Some marshalErr) => JSONValue_err (JSONError "Parse" (Some marshalErr))
      | (jsonBytes, None) =>
          match json_Unmarshal jsonBytes with
          | (_, Some e) => JSONValue_err (JSONError "Parse" (Some e))
          | (result, None) => JSONValue_data result
          end
      end) as Hencode.
  { intros val. destruct (json_Marshal val) as [b [e|]];
      [apply JSONValue_err_no_data | apply Hdecode]. }
  destruct v as [| | | |s|b| | | |jv|]; try apply Hencode.
  - apply JSONValue_err_no_data.
  - unfold Parse. destruct (String.eqb s EmptyString);
      [apply JSONValue_err_no_data | apply Hdecode].
  - unfold Parse. destruct (Z.of_nat (String.length b) =? 0);
      [apply JSONValue_err_no_data | apply Hdecode].
  - by apply Hv.
Qed.

(** X14: a value in failure state never holds data. [Valid] and [Invalid]
    make such values, [Get], [Parse] and [Clone] return such a value when
    they are given one, and the elements of [Array] and [Object] are all
    valid. *)
Theorem failure_state_invariant :
  (∀ d, failure_holds_no_data (Valid d)) ∧
  (∀ e, failure_holds_no_data (Invalid e)) ∧
  (∀ j keys, failure_holds_no_data j → failure_holds_no_data (Get j keys)) ∧
  (∀ v, (∀ j, v = VJSONValue j → failure_holds_no_data j) →
        failure_holds_no_data (Parse v)) ∧
  (∀ j, failure_holds_no_data j → failure_holds_no_data (Clone j)) ∧
  (∀ j jv, jv ∈ fst (Array j) → IsValid jv = true) ∧
  (∀ j k jv, fst (Object j) !! k = Some jv → IsValid jv = true).
Proof.
  split_and!.
  - apply JSONValue_data_no_failure.
  - intros e. apply JSONValue_err_no_data.
  - apply Get_keeps_invariant.
  - apply Parse_keeps_invariant.
  - intros j Hinv. unfold Clone. destruct (err j) as [e|] eqn:Hj; [done|].
    destruct (Encoder_Encode EmptyString (data j)) as [buffer [e|]];
      [apply JSONValue_err_no_data|].
    by apply Parse_keeps_invariant.
  - intros j jv. unfold Array.
    destruct (err j); [by intros ?%elem_of_nil|].
    destruct (data j); simpl; try by intros ?%elem_of_nil.
    by intros (d & -> & _)%list_elem_of_fmap.
  - intros j k jv. unfold Object.
    destruct (err j); simpl; [by rewrite lookup_empty|].
    destruct (data j); simpl; try by rewrite lookup_empty.
    rewrite lookup_fmap. by intros (d & _ & ->)%fmap_Some.
Qed.

(** X15: [Parse] of an input that is not a [JSONValue] tags every error it
    returns with [Parse]; nil, the empty string and the empty byte slice
    always fail, whatever the decoder; a non-empty string and the byte
    slice of the same text parse alike; and [MustParse] panics with exactly
    the error of [Parse]. *)
Theorem Parse_errors :
  (∀ v e, (∀ j, v ≠ VJSONValue j) → err (Parse v) = Some e →
          error_Op e = Some "Parse"%string) ∧
  IsValid (Parse VNil) = false ∧
  IsValid (Parse (VString EmptyString)) = false ∧
  IsValid (Parse (VBytes EmptyString)) = false ∧
  (∀ s, s ≠ EmptyString → Parse (VString s) = Parse (VBytes s)) ∧
  (∀ v e, MustParse v = inr e ↔ err (Parse v) = Some e).
Proof.
  split_and!; try done.
  - intros v e Hv.
    destruct v as [| | | |s|b| | | |jv|]; simpl;
      try (destruct (json_Marshal _) as [bytes [e'|]]; [by intros [= <-]|]);
      try destruct (String.eqb s EmptyString);
      try destruct (Z.of_nat (String.length b) =? 0);
      try (destruct (json_Unmarshal _) as [r [e'|]]);
      try (by intros [= <-]); try done.
    by destruct (Hv jv).
  - intros s Hs. unfold Parse.
    rewrite (length_nonempty s Hs).
    by destruct (String.eqb_spec s EmptyString).
  - intros v e. unfold MustParse.
    destruct (err (Parse v)) as [e'|]; split; by intros [= ->].
Qed.

(** ** Rendered messages *)

Lemma render_key_not_found (k : string) (i : Z) :
  error_Error (JSONError "Get" (Some
    (Errorf "key %q not found at position %d" [VString k; VInt i]))) =
  ("jsonjs.Get: key " ++ strconv_Quote k ++ " not found at position " ++ pretty i)%string.
Proof.
  transitivity ("jsonjs.Get: key " ++ strconv_Quote k ++
                " not found at position " ++ pretty i ++ EmptyString)%string;
    [reflexivity|]. by rewrite string_app_nil_r.
Qed.

Lemma render_out_of_bounds (idx n i : Z) :
  error_Error (JSONError "Get" (Some
    (Errorf "array index %d out of bounds (length: %d) at position %d"
       [VInt idx; VInt n; VInt i]))) =
  ("jsonjs.Get: array index " ++ pretty idx ++ " out of bounds (length: " ++
   pretty n ++ ") at position " ++ pretty i)%string.
Proof.
  transitivity ("jsonjs.Get: array index " ++ pretty idx ++
                " out of bounds (length: " ++ pretty n ++
                ") at position " ++ pretty i ++ EmptyString)%string;
    [reflexivity|]. by rewrite string_app_nil_r.
Qed.

Lemma render_nil_access (k : string) (i : Z) :
  error_Error (JSONError "Get" (Some
    (Errorf "cannot access key %v on nil value at position %d" [VString k; VInt i]))) =
  ("jsonjs.Get: cannot access key " ++ k ++ " on nil value at position " ++
   pretty i)%string.
Proof.
  transitivity ("jsonjs.Get: cannot access key " ++ k ++
                " on nil value at position " ++ pretty i ++ EmptyString)%string;
    [reflexivity|]. by rewrite string_app_nil_r.
Qed.

(** X16: the text of the errors, as [Error] renders it: a missing key, an
    index beyond the array, a key applied to null and a string that [Int]
    cannot read give the messages the documentation shows, with the quoted
    key, the index, the length and the position in their places. *)
Theorem documented_messages :
  (∀ (j : JSONValue) (pre post : list value) (m : gmap string value) (k : string),
     err j = None → Get j pre = JSONValue_data (VMap m) → m !! k = None →
     error_Error <$> err (Get j (pre ++ VString k :: post)) =
     Some ("jsonjs.Get: key " ++ strconv_Quote k ++
           " not found at position " ++ pretty (len pre))%string) ∧
  (∀ (j : JSONValue) (pre post : list value) (c : list value) (idx : Z),
     err j = None → Get j pre = JSONValue_data (VSlice c) → len c ≤ idx →
     error_Error <$> err (Get j (pre ++ VInt idx :: post)) =
     Some ("jsonjs.Get: array index " ++ pretty idx ++
           " out of bounds (length: " ++ pretty (len c) ++
           ") at position " ++ pretty (len pre))%string) ∧
  (∀ (j : JSONValue) (pre post : list value) (k : string),
     err j = None → Get j pre = JSONValue_data VNil →
     error_Error <$> err (Get j (pre ++ VString k :: post)) =
     Some ("jsonjs.Get: cannot access key " ++ k ++
           " on nil value at position " ++ pretty (len pre))%string) ∧
  (∀ s : string, snd (strconv_Atoi s) ≠ None →
     error_Error <$> snd (Int (Valid (VString s))) =
     Some ("jsonjs.Int: cannot convert string " ++ strconv_Quote s ++ " to int")%string).
Proof.
  split_and!.
  - intros j pre post m k Hj Hpre Hk.
    rewrite (Get_at j pre _ _ Hj Hpre), (Get_loop_key_absent m k _ post Hk).
    by rewrite <- render_key_not_found.
  - intros j pre post c idx Hj Hpre Hidx.
    rewrite (Get_at j pre _ _ Hj Hpre).
    assert (Get_loop (VSlice c) (len pre) (VInt idx :: post) =
            JSONValue_err (JSONError "Get" (Some
              (Errorf "array index %d out of bounds (length: %d) at position %d"
                 [VInt idx; VInt (len c); VInt (len pre)])))) as ->.
    { simpl. by replace ((idx <? 0) || (len c <=? idx)) with true by lia. }
    by rewrite <- render_out_of_bounds.
  - intros j pre post k Hj Hpre.
    rewrite (Get_at j pre _ _ Hj Hpre).
    change (Get_loop VNil (len pre) (VString k :: post)) with
      (JSONValue_err (JSONError "Get" (Some
         (Errorf "cannot access key %v on nil value at position %d"
            [VString k; VInt (len pre)])))).
    by rewrite <- render_nil_access.
  - intros s Hs. unfold Int, Valid. simpl err. simpl data. cbv iota beta.
    destruct (strconv_Atoi s) as [i [e|]]; [|done]. reflexivity.
Qed.

(** ** Coercions beside the other operations *)

(** X17: a key that [convertToIndex] accepts is read by [Int] as the same
    number: whenever the conversion of [key] succeeds, [Int] on the valid
    value wrapping [key] returns the same result without error. [Int] reads
    nil as well, which is no index. *)
Theorem Int_agrees_with_index (key : value) :
  (snd (convertToIndex key) = None → Int (Valid key) = convertToIndex key) ∧
  (key = VNil → Int (Valid key) = (0, None) ∧ snd (convertToIndex key) ≠ None).
Proof.
  split.
  - destruct key; try done.
    unfold Int, convertToIndex. simpl.
    by destruct (strconv_Atoi s) as [i [e|]].
  - by intros ->.
Qed.

(** X18: [Stringify] of [Raw] loses the failure: for a failed value,
    [Stringify] of the value returns its error, but [Stringify] of its
    [Raw] data is the text [null] without error. For a valid value whose
    data is neither nil nor a [JSONValue], the two give the same. *)
Theorem Stringify_of_Raw (j : JSONValue) :
  (err j ≠ None →
   Stringify (Raw j) = ("null"%string, None) ∧
   Stringify (VJSONValue j) = (EmptyString, err j)) ∧
  (err j = None → data j ≠ VNil → (∀ jv, data j ≠ VJSONValue jv) →
   Stringify (Raw j) = Stringify (VJSONValue j)).
Proof.
  destruct j as [d [e|]]; (split; [|]); try done.
  intros _ Hnil Hjv. unfold Raw, Stringify. simpl in *.
  destruct d; try done. by destruct (Hjv j).
Qed.

End Further.

(** * The properties on concrete inputs *)

#[local] Existing Instance example_stdlib.

(** Sticky propagation on the failed value that [Get] of an absent key
    produces. *)
Lemma sticky_propagation_witness :
  let j := Get (Valid (VMap ∅)) [VString "missing"] in
  let e := JSONError "Get" (Some
             (Errorf "key %q not found at position %d" [VString "missing"; VInt 0])) in
  err j = Some e ∧
  Get j [VString "a"; VInt 0] = j ∧
  fold_left Get [[VString "a"]; [VInt 0]] j = j ∧
  snd (String_ j) = Some e ∧
  snd (Int j) = Some e ∧
  snd (Array j) = Some e.
Proof.
  intros j e.
  assert (err j = Some e) as Hj by reflexivity.
  destruct (sticky_propagation j e Hj)
    as (HGet & Hchain & HString & HInt & _ & _ & HArray & _).
  split_and!;
    [exact Hj | apply HGet | apply Hchain | exact HString | exact HInt | exact HArray].
Defined.

(** Fail-fast navigation with the keys a, b, c on the objects
    [{"a": {"x": 1}}] and [{"a": "x"}]. *)
Lemma Get_fail_fast_witness :
  let inner : gmap string value := {["x"%string := VInt 1]} in
  let m : gmap string value := {["a"%string := VMap inner]} in
  let m' : gmap string value := {["a"%string := VString "x"]} in
  let j := Valid (VMap m) in
  let j' := Valid (VMap m') in
  err j = None ∧
  node_at (data j) [VString "a"] = Some (VMap inner) ∧
  inner !! "b"%string = None ∧
  m !! "a"%string = Some (VMap inner) ∧
  m' !! "a"%string = Some (VString "x") ∧
  (∀ post,
     Get j ([VString "a"] ++ VString "b" :: post) =
     Get_failure "key %q not found at position %d" [VString "b"; VInt 1]) ∧
  Get j [VString "a"; VString "b"; VString "c"] =
    Get_failure "key %q not found at position %d" [VString "b"; VInt 1] ∧
  Get j' [VString "a"; VString "b"; VString "c"] =
    Get_failure "cannot access key %v on type %T at position %d"
      [VString "b"; VString "x"; VInt 1] ∧
  error_Error (JSONError "Get" (Some
    (Errorf "cannot access key %v on type %T at position %d"
       [VString "b"; VString "x"; VInt 1]))) =
    "jsonjs.Get: cannot access key b on type string at position 1"%string ∧
  IsValid (Get j' [VString "a"; VString "b"; VString "c"]) = false ∧
  ∃ pre key post c,
    [VString "a"; VString "b"; VString "c"] = pre ++ key :: post ∧
    node_at (data j') pre = Some c ∧
    node_at c [key] = None.
Proof.
  intros inner m m' j j'.
  assert (node_at (data j) [VString "a"] = Some (VMap inner)) as Hpre by reflexivity.
  assert (inner !! "b"%string = None) as Hb by reflexivity.
  assert (m !! "a"%string = Some (VMap inner)) as Ha by reflexivity.
  assert (m' !! "a"%string = Some (VString "x")) as Ha' by reflexivity.
  assert (IsValid (Get j' [VString "a"; VString "b"; VString "c"]) = false)
    as Hfail by reflexivity.
  destruct Get_fail_fast as (Hgen & Htext & Hall & Habc).
  split_and!; [reflexivity | exact Hpre | exact Hb | exact Ha | exact Ha' | | | | |
               exact Hfail |].
  - intros post.
    destruct (Hgen j [VString "a"] post (VMap inner) (VString "b") eq_refl Hpre)
      as (_ & _ & Hmissing & _).
    exact (Hmissing inner "b"%string eq_refl eq_refl Hb).
  - destruct (Habc m (VMap inner) Ha) as (_ & _ & Hmissing & _).
    exact (Hmissing inner eq_refl Hb).
  - destruct (Habc m' (VString "x") Ha') as (_ & _ & _ & _ & Hscalar).
    apply Hscalar; done.
  - destruct (Htext 1 (VString "b") (VString "x") EmptyString 0 0
                (Errorf EmptyString [])) as (_ & _ & _ & _ & _ & Hscalar).
    rewrite Hscalar. by vm_compute.
  - exact (Hall j' _ eq_refl Hfail).
Defined.

(** The default of [StringOr] on the object [{"name": ""}]. *)
Lemma StringOr_empty_string_witness :
  let m : gmap string value := {["name"%string := VString ""]} in
  m !! "name"%string = Some (VString "") ∧
  m !! "absent"%string = None ∧
  StringOr (Get (Valid (VMap m)) [VString "name"]) "fallback" = "fallback"%string ∧
  StringOr (Get (Valid (VMap m)) [VString "absent"]) "fallback" = "fallback"%string.
Proof.
  intros m.
  assert (m !! "name"%string = Some (VString "")) as Hname by reflexivity.
  assert (m !! "absent"%string = None) as Habsent by reflexivity.
  destruct (StringOr_empty_string "fallback") as (_ & _ & Hempty & Hmissing & _).
  split_and!; [exact Hname | exact Habsent | by apply Hempty | by apply Hmissing].
Defined.

(** On the array [["x", "y"]] the index [-1] converts without error and is
    then reported out of bounds, and the string [+1], which is not made of
    digits only, converts and selects the second element. *)
Lemma array_index_counterexample :
  let arr := Valid (VSlice [VString "x"; VString "y"]) in
  convertToIndex (VInt (-1)) = (-1, None) ∧
  Get arr [VInt (-1)] =
    JSONValue_err (JSONError "Get" (Some
      (Errorf "array index %d out of bounds (length: %d) at position %d"
         [VInt (-1); VInt 2; VInt 0]))) ∧
  (error_Error <$> err (Get arr [VInt (-1)])) =
    Some "jsonjs.Get: array index -1 out of bounds (length: 2) at position 0"%string ∧
  all_digits "+1" = false ∧
  Get arr [VString "+1"] = JSONValue_data (VString "y").
Proof. by vm_compute. Qed.

(** Index conversion on the object [{"arr": ["x", "y"]}], with the key of
    the repository's test of a string key on an array. *)
Lemma array_index_conversion_witness :
  let m : gmap string value := {["arr"%string := VSlice [VString "x"; VString "y"]]} in
  let j := Valid (VMap m) in
  convertToIndex (VFloat64 (S754_finite false 3 (-1))) = (1, None) ∧
  convertToIndex (VString "01") = (1, None) ∧
  convertToIndex (VString "-1") = (-1, None) ∧
  int_numeral "1x" = None ∧
  convertToIndex (VString "invalid") = (0, Some (NumError "Atoi" "invalid" ErrSyntax)) ∧
  convertToIndex (VString "1.5") = (0, Some (NumError "Atoi" "1.5" ErrSyntax)) ∧
  convertToIndex (VBool true) =
    (0, Some (Errorf "cannot convert %T to array index" [VBool true])) ∧
  Get j [VString "arr"; VString "invalid"] =
    JSONValue_err (JSONError "Get" (Some
      (Errorf "invalid array index %v at position %d: %v"
         [VString "invalid"; VInt 1; VError (NumError "Atoi" "invalid" ErrSyntax)]))) ∧
  (∃ ne,
     Get j [VString "arr"; VString "1x"] =
     JSONValue_err (JSONError "Get" (Some
       (Errorf "invalid array index %v at position %d: %v"
          [VString "1x"; VInt 1; VError (NumError "Atoi" "1x" ne)])))) ∧
  Get j [VString "arr"; VBool true] =
    JSONValue_err (JSONError "Get" (Some
      (Errorf "invalid array index %v at position %d: %v"
         [VBool true; VInt 1;
          VError (Errorf "cannot convert %T to array index" [VBool true])]))) ∧
  Get j [VString "arr"; VString "-1"] =
    JSONValue_err (JSONError "Get" (Some
      (Errorf "array index %d out of bounds (length: %d) at position %d"
         [VInt (-1); VInt 2; VInt 1]))).
Proof.
  intros m j.
  destruct array_index_conversion
    as (_ & Hfloat & _ & _ & Hsyntax & _ & _ & Hstring & Hother & Hinvalid &
        Hnumeral & Hnegative).
  assert ("1"%string ≠ EmptyString) as Hne by done.
  assert (decimal_value 0 "1" ≤ int_max) as Hmax by (by vm_compute).
  destruct (Hstring "1"%string Hne eq_refl Hmax) as (_ & _ & Hminus).
  assert ("01"%string ≠ EmptyString) as Hne' by done.
  assert (decimal_value 0 "01" ≤ int_max) as Hmax' by (by vm_compute).
  destruct (Hstring "01"%string Hne' eq_refl Hmax') as (Hdigits & _ & _).
  assert (Get j [VString "arr"] = JSONValue_data (VSlice [VString "x"; VString "y"]))
    as Hpre by reflexivity.
  assert (int_numeral "1x" = None) as Hnot by reflexivity.
  assert (convertToIndex (VString "invalid") =
          (0, Some (NumError "Atoi" "invalid" ErrSyntax))) as Hword.
  { refine (Hsyntax "invalid"%string EmptyString "i"%char "nvalid"%string
              eq_refl eq_refl eq_refl _). by vm_compute. }
  split_and!.
  - exact (Hfloat (S754_finite false 3 (-1)) 1 eq_refl eq_refl).
  - exact Hdigits.
  - exact Hminus.
  - exact Hnot.
  - exact Hword.
  - refine (Hsyntax "1.5"%string "1"%string "."%char "5"%string
              eq_refl eq_refl eq_refl _). by vm_compute.
  - exact (Hother (VBool true) eq_refl).
  - exact (Hinvalid j [VString "arr"] _ (VString "invalid") 0 _ [] eq_refl Hpre Hword).
  - exact (Hnumeral j [VString "arr"] _ "1x"%string [] eq_refl Hpre Hnot).
  - exact (Hinvalid j [VString "arr"] _ (VBool true) 0 _ [] eq_refl Hpre
             (Hother (VBool true) eq_refl)).
  - refine (Hnegative j [VString "arr"] _ (VString "-1") (-1) [] eq_refl Hpre Hminus _).
    done.
Defined.

(** [Int] on the failed value that [Get] of an absent key produces returns
    an error tagged [Get], not [Int]. *)
Lemma coercion_error_tag_counterexample :
  let j := Get (Valid (VMap ∅)) [VString "missing"] in
  IsValid j = false ∧
  ∃ e, snd (Int j) = Some e ∧
       error_Op e = Some "Get"%string ∧
       error_Op e ≠ Some "Int"%string.
Proof. split; [by vm_compute|]. eexists. split_and!; [by vm_compute | done | done]. Qed.

(** Tags of coercion errors: on a failed value, and on a valid value that
    [Int] cannot convert. *)
Lemma coercion_error_tag_witness :
  let failed := Get (Valid (VMap ∅)) [VString "missing"] in
  let e := JSONError "Get" (Some
             (Errorf "key %q not found at position %d" [VString "missing"; VInt 0])) in
  (snd (String_ failed) = Some e ∧ snd (Int failed) = Some e ∧
   snd (Float64 failed) = Some e ∧ snd (Bool failed) = Some e) ∧
  error_Op <$> snd (Int (Valid (VBool true))) = Some (Some "Int"%string).
Proof.
  intros failed e. split.
  - exact (coercion_error_tag failed).
  - destruct (coercion_error_tag (Valid (VBool true))) as (_ & HInt & _).
    destruct (snd (Int (Valid (VBool true)))) as [e'|] eqn:He'; [|done].
    simpl. f_equal. by apply HInt.
Defined.

(** [IsNull] on the object [{"k": null}]. *)
Lemma IsNull_spec_witness :
  let m : gmap string value := {["k"%string := VNil]} in
  m !! "k"%string = Some VNil ∧
  m !! "missing"%string = None ∧
  IsNull (Get (Valid (VMap m)) [VString "k"]) = true ∧
  IsNull (Get (Valid (VMap m)) [VString "missing"]) = false.
Proof.
  intros m.
  assert (m !! "k"%string = Some VNil) as Hk by reflexivity.
  assert (m !! "missing"%string = None) as Hmissing by reflexivity.
  destruct IsNull_spec as (_ & _ & Hnull & Habsent).
  split_and!; [exact Hk | exact Hmissing | by apply Hnull | by apply Habsent].
Defined.

(** On the empty array the index N-1 is -1, and [Get] fails. *)
Lemma Get_index_boundary_counterexample :
  let c : list value := [] in
  len c - 1 = -1 ∧
  IsValid (Get (Valid (VSlice c)) [VInt (len c - 1)]) = false ∧
  (error_Error <$> err (Get (Valid (VSlice c)) [VInt (len c - 1)])) =
    Some "jsonjs.Get: array index -1 out of bounds (length: 0) at position 0"%string.
Proof. by vm_compute. Qed.

(** The index boundary on an array of length 3. *)
Lemma Get_index_boundary_witness :
  let c := [VString "p"; VString "q"; VNil] in
  let j := Valid (VSlice c) in
  err j = None ∧ data j = VSlice c ∧ 0 < len c ∧
  Get j [VInt 2] = JSONValue_data VNil ∧
  ∃ e,
    Get j [VInt 3] = JSONValue_err e ∧
    cites_length (error_Error e) 3.
Proof.
  intros c j.
  destruct (Get_index_boundary j c eq_refl eq_refl) as [Hlast (e & Hget & _ & Hcites & _)].
  assert (0 < len c) as Hlen by done.
  destruct (Hlast Hlen) as (x & Hx & Hgetx).
  injection Hx as <-.
  split_and!; [done | done | exact Hlen | exact Hgetx |].
  exists e. split; [exact Hget | exact Hcites].
Defined.

(** [Stringify] on a failed value, on a value wrapping nil and on a channel
    type, which the encoder rejects. *)
Lemma Stringify_spec_witness :
  let failed := Get (Valid VNil) [VString "k"] in
  json_Marshal VNil = ("null"%string, None) ∧
  Stringify (VJSONValue failed) = (EmptyString, err failed) ∧
  Stringify (VJSONValue (Valid VNil)) = ("null"%string, None) ∧
  Stringify (VOther "chan int") =
    (EmptyString,
     Some (JSONError "Stringify" (Some
       (ExternalError "*json.UnsupportedTypeError" "json: unsupported type: chan int")))).
Proof.
  intros failed.
  destruct Stringify_spec as (Hfailed & _ & Hnull & _ & Hencode).
  split_and!.
  - reflexivity.
  - exact (Hfailed failed _ eq_refl).
  - exact (Hnull eq_refl (Valid VNil) eq_refl eq_refl).
  - refine (Hencode (VOther "chan int") EmptyString _ _ _ eq_refl); [done|done].
Defined.

(** [Raw] after a failed [Get] on a receiver that holds data. *)
Lemma Raw_spec_witness :
  let j := Valid (VMap {["k"%string := VInt 1]}) in
  IsValid (Get j [VString "missing"]) = false ∧
  Raw (Get j [VString "missing"]) = VNil ∧
  Raw j = data j.
Proof.
  intros j.
  destruct Raw_spec as (_ & _ & Hvalid & Hfailed).
  assert (IsValid (Get j [VString "missing"]) = false) as Hget by reflexivity.
  split_and!; [exact Hget | exact (Hfailed j _ Hget) | exact (Hvalid j eq_refl)].
Defined.

(** * The further properties on concrete inputs *)

(** Lookup and [Get] on the object [{"a": [1, null]}]. *)
Lemma Get_refines_node_at_witness :
  let j := Valid (VMap {["a"%string := VSlice [VInt 1; VNil]]}) in
  err j = None ∧
  node_at (data j) [VString "a"; VInt 1] = Some VNil ∧
  Get j [VString "a"; VInt 1] = JSONValue_data VNil ∧
  node_at (data j) [VString "a"; VInt 5] = None ∧
  IsValid (Get j [VString "a"; VInt 5]) = false.
Proof.
  intros j.
  assert (node_at (data j) [VString "a"; VInt 1] = Some VNil) as Hin by reflexivity.
  assert (node_at (data j) [VString "a"; VInt 5] = None) as Hout by reflexivity.
  split_and!; [reflexivity | exact Hin | | exact Hout |].
  - exact (proj2 (proj1 (Get_refines_node_at j _ eq_refl) VNil) Hin).
  - exact (proj2 (proj2 (Get_refines_node_at j _ eq_refl)) Hout).
Defined.

(** Chained and joined [Get] on the object [{"a": [1, null]}]. *)
Lemma Get_compose_witness :
  let j := Valid (VMap {["a"%string := VSlice [VInt 1; VNil]]}) in
  data (Get (Get j [VString "a"]) [VInt 0]) = data (Get j [VString "a"; VInt 0]) ∧
  IsValid (Get (Get j [VString "a"]) [VInt 7]) = IsValid (Get j [VString "a"; VInt 7]) ∧
  IsValid (Get j [VString "b"]) = false ∧
  Get j [VString "b"; VInt 0] = Get j [VString "b"] ∧
  IsValid (Get j [VString "a"]) = true ∧
  IsValid (Get (Get j [VString "a"]) [VInt 7]) = false ∧
  (∃ mk p, Get_error_at mk ∧ 0 ≤ p < 1 ∧
           Get (Get j [VString "a"]) [VInt 7] = JSONValue_err (mk p) ∧
           Get j [VString "a"; VInt 7] = JSONValue_err (mk (1 + p))) ∧
  Get (Get j [VString "a"]) [VInt 7] =
    Get_failure "array index %d out of bounds (length: %d) at position %d"
      [VInt 7; VInt 2; VInt 0] ∧
  Get j [VString "a"; VInt 7] =
    Get_failure "array index %d out of bounds (length: %d) at position %d"
      [VInt 7; VInt 2; VInt 1].
Proof.
  intros j.
  assert (IsValid (Get j [VString "b"]) = false) as Hb by reflexivity.
  assert (IsValid (Get j [VString "a"]) = true) as Ha by reflexivity.
  assert (IsValid (Get (Get j [VString "a"]) [VInt 7]) = false) as Hfail by reflexivity.
  split_and!.
  - exact (proj1 (proj2 (Get_compose j [VString "a"] [VInt 0]))).
  - exact (proj1 (Get_compose j [VString "a"] [VInt 7])).
  - exact Hb.
  - exact (proj2 (proj1 (proj2 (proj2 (Get_compose j [VString "b"] [VInt 0]))) Hb)).
  - exact Ha.
  - exact Hfail.
  - exact (proj2 (proj2 (proj2 (Get_compose j [VString "a"] [VInt 7]))) Ha Hfail).
  - reflexivity.
  - reflexivity.
Defined.

(** A path that exists and one of its prefixes. *)
Lemma Has_prefix_witness :
  let j := Valid (VMap {["a"%string := VSlice [VInt 1; VNil]]}) in
  Has j ([VString "a"] ++ [VInt 1]) = true ∧ Has j [VString "a"] = true.
Proof.
  intros j.
  assert (Has j ([VString "a"] ++ [VInt 1]) = true) as Hall by reflexivity.
  split; [exact Hall | exact (Has_prefix j _ _ Hall)].
Defined.

(** [GetOr] on a key bound to null, on an absent key and on a failed
    value. *)
Lemma GetOr_spec_witness :
  let j := Valid (VMap {["k"%string := VNil]}) in
  let failed := Get j [VString "absent"] in
  err j = None ∧ err failed ≠ None ∧
  GetOr j (VInt 7) [VString "k"] = VNil ∧
  GetOr j (VInt 7) [VString "absent"] = VInt 7 ∧
  GetOr failed (VInt 7) [] = VInt 7.
Proof.
  intros j failed.
  assert (err failed ≠ None) as Hfailed by done.
  split_and!; [reflexivity | exact Hfailed | | |].
  - exact (proj1 (GetOr_spec j (VInt 7) [VString "k"]) eq_refl).
  - exact (proj1 (GetOr_spec j (VInt 7) [VString "absent"]) eq_refl).
  - exact (proj2 (GetOr_spec failed (VInt 7) []) Hfailed).
Defined.

(** [Array] on the array [["p", "q"]]. *)
Lemma Array_elements_witness :
  let arr := [VString "p"; VString "q"] in
  let j := Valid (VSlice arr) in
  err j = None ∧ data j = VSlice arr ∧ (1 < length arr)%nat ∧
  length (fst (Array j)) = 2%nat ∧
  fst (Array j) !! 1%nat = Some (Get j [VInt 1]).
Proof.
  intros arr j.
  destruct (Array_elements j arr eq_refl eq_refl) as (_ & Hlen & Hget).
  assert (1 < length arr)%nat as Hin by (simpl; lia).
  split_and!; [reflexivity | reflexivity | exact Hin | exact Hlen |].
  exact (proj1 (Hget 1%nat Hin)).
Defined.

(** [Object] on the object [{"k": 1}]. *)
Lemma Object_entries_witness :
  let obj : gmap string value := {["k"%string := VInt 1]} in
  let j := Valid (VMap obj) in
  err j = None ∧ data j = VMap obj ∧
  fst (Object j) !! "k"%string = Some (JSONValue_data (VInt 1)) ∧
  fst (Object j) !! "absent"%string = None.
Proof.
  intros obj j.
  destruct (Object_entries j obj eq_refl eq_refl) as [_ Hentry].
  split_and!; [reflexivity | reflexivity | exact (Hentry "k"%string) |
               exact (Hentry "absent"%string)].
Defined.

(** [Type] beside [IsNull] and [Array] on null and on an array. *)
Lemma Type_agrees_witness :
  IsNull (Valid VNil) = true ∧ Type_ (Valid VNil) = "null"%string ∧
  Type_ (Valid (VSlice [])) = "array"%string ∧ snd (Array (Valid (VSlice []))) = None.
Proof.
  assert (IsNull (Valid VNil) = true) as Hnull by reflexivity.
  assert (Type_ (Valid (VSlice [])) = "array"%string) as Harray by reflexivity.
  split_and!; [exact Hnull | | exact Harray |].
  - exact (proj2 (proj1 (proj2 (Type_agrees (Valid VNil)))) Hnull).
  - exact (proj1 (proj1 (proj2 (proj2 (Type_agrees (Valid (VSlice []))))) ) Harray).
Defined.

(** The defaults on a failed value and on a valid null. *)
Lemma Or_defaults_witness :
  let failed := Get (Valid VNil) [VString "k"] in
  err failed ≠ None ∧
  IntOr failed 5 = 5 ∧ StringOr failed "d" = "d"%string ∧
  IntOr (Valid VNil) 5 = 0 ∧ BoolOr (Valid VNil) true = false ∧
  StringOr (Valid VNil) "d" = "d"%string.
Proof.
  intros failed.
  assert (err failed ≠ None) as Hfailed by done.
  destruct (proj1 (Or_defaults failed 5 (S754_zero false) true "d") Hfailed)
    as (HInt & _ & _ & HString).
  destruct (proj2 (Or_defaults (Valid VNil) 5 (S754_zero false) true "d") eq_refl eq_refl)
    as (HInt0 & _ & HBool0 & HString0).
  split_and!; [exact Hfailed | exact HInt | exact HString | exact HInt0 | exact HBool0 |
               exact HString0].
Defined.

(** [Int] on the text of the smallest [int]. *)
Lemma Int_of_decimal_text_witness :
  int_min ≤ int_min ≤ int_max ∧
  Int (Valid (VString "-9223372036854775808")) = (int_min, None).
Proof.
  assert (int_min ≤ int_min ≤ int_max) as Hn by (by vm_compute).
  split; [exact Hn | exact (proj1 (Int_of_decimal_text int_min 0 Hn))].
Defined.

(** The index 1 of [["p", "q"]] as an [int], as text and as the float
    1.5. *)
Lemma index_forms_agree_witness :
  let j := Valid (VMap {["arr"%string := VSlice [VString "p"; VString "q"]]}) in
  err j = None ∧
  Get j [VString "arr"] = JSONValue_data (VSlice [VString "p"; VString "q"]) ∧
  int_min ≤ 1 ≤ int_max ∧
  float64_trunc (S754_finite false 3 (-1)) = Some 1 ∧
  Get j [VString "arr"; VString "1"] = Get j [VString "arr"; VInt 1] ∧
  Get j [VString "arr"; VFloat64 (S754_finite false 3 (-1))] =
    Get j [VString "arr"; VInt 1].
Proof.
  intros j.
  assert (Get j [VString "arr"] = JSONValue_data (VSlice [VString "p"; VString "q"]))
    as Hpre by reflexivity.
  assert (int_min ≤ 1 ≤ int_max) as Hn by (by vm_compute).
  destruct (index_forms_agree j [VString "arr"] [] _ 1 eq_refl Hpre Hn) as [Htext Hfloat].
  split_and!; [reflexivity | exact Hpre | apply Hn | apply Hn | reflexivity | exact Htext |].
  exact (Hfloat (S754_finite false 3 (-1)) eq_refl).
Defined.

(** [Clone] and [Stringify] on a valid value and on one the encoder
    rejects. *)
Lemma Clone_Parse_Stringify_witness :
  let j := Valid (VBool true) in
  let bad := Valid (VOther "chan int") in
  err j = None ∧ err bad = None ∧
  Clone j = Parse (VBytes "true") ∧
  error_Op <$> err (Clone bad) = Some (Some "Clone"%string).
Proof.
  intros j bad.
  pose proof (proj2 (Clone_Parse_Stringify j) eq_refl) as Hj.
  pose proof (proj2 (Clone_Parse_Stringify bad) eq_refl) as Hbad.
  split_and!; [reflexivity | reflexivity | exact Hj |].
  destruct Hbad as (e0 & _ & ->). reflexivity.
Defined.

(** [Clone] of a valid value wrapping null. *)
Lemma Clone_round_trip_witness :
  let j := Valid VNil in
  err j = None ∧
  json_Marshal (data j) = ("null"%string, None) ∧
  json_Unmarshal "null" = (VNil, None) ∧
  Clone j = j.
Proof.
  intros j.
  assert (json_Marshal (data j) = ("null"%string, None)) as Henc by reflexivity.
  assert (json_Unmarshal "null" = (VNil, None)) as Hdec by reflexivity.
  destruct (Clone_round_trip j "null" eq_refl Henc) as [_ Hclone].
  assert ("null"%string ≠ EmptyString) as Hne by done.
  split_and!; [reflexivity | exact Henc | exact Hdec |].
  exact (proj2 (Hclone Hne VNil Hdec) eq_refl).
Defined.

(** The invariant along [Parse], [Get] and [Array]. *)
Lemma failure_state_invariant_witness :
  let j := Parse (VString "{") in
  failure_holds_no_data j ∧
  failure_holds_no_data (Get j [VString "k"]) ∧
  ∀ jv, jv ∈ fst (Array (Valid (VSlice [VNil; VInt 1]))) → IsValid jv = true.
Proof.
  intros j.
  destruct failure_state_invariant as (_ & _ & HGet & HParse & _ & HArray & _).
  assert (failure_holds_no_data j) as Hj.
  { apply HParse. intros jv Hjv. discriminate Hjv. }
  split_and!; [exact Hj | exact (HGet j _ Hj) | exact (HArray _)].
Defined.

(** [Parse] on text the decoder rejects, as a string and as bytes. *)
Lemma Parse_errors_witness :
  let v := VString "{" in
  (∀ j, v ≠ VJSONValue j) ∧
  error_Op <$> err (Parse v) = Some (Some "Parse"%string) ∧
  Parse (VString "{") = Parse (VBytes "{") ∧
  MustParse v =
    inr (JSONError "Parse" (Some (ExternalError "*json.SyntaxError" "invalid character"))).
Proof.
  intros v.
  destruct Parse_errors as (Htag & _ & _ & _ & Hbytes & HMust).
  assert (∀ j, v ≠ VJSONValue j) as Hv by done.
  assert ("{"%string ≠ EmptyString) as Hne by done.
  split_and!; [exact Hv | | exact (Hbytes _ Hne) | exact (proj2 (HMust v _) eq_refl)].
  destruct (err (Parse v)) as [e|] eqn:He; [|done].
  simpl. f_equal. exact (Htag v e Hv He).
Defined.

(** The documented messages on [{"name": "John", "tags": ["a", "b"]}]. *)
Lemma documented_messages_witness :
  let m : gmap string value :=
    {["name"%string := VString "John"; "tags"%string := VSlice [VString "a"; VString "b"]]} in
  let j := Valid (VMap m) in
  m !! "age"%string = None ∧
  Get j [VString "tags"] = JSONValue_data (VSlice [VString "a"; VString "b"]) ∧
  error_Error <$> err (Get j [VString "age"]) =
    Some ("jsonjs.Get: key " ++ strconv_Quote "age" ++ " not found at position 0")%string ∧
  error_Error <$> err (Get j [VString "tags"; VInt 5]) =
    Some "jsonjs.Get: array index 5 out of bounds (length: 2) at position 1"%string ∧
  error_Error <$> snd (Int (Get j [VString "name"])) =
    Some ("jsonjs.Int: cannot convert string " ++ strconv_Quote "John" ++ " to int")%string.
Proof.
  intros m j.
  destruct documented_messages as (Hkey & Hbounds & _ & HInt).
  assert (m !! "age"%string = None) as Hage by reflexivity.
  assert (Get j [VString "tags"] = JSONValue_data (VSlice [VString "a"; VString "b"]))
    as Htags by reflexivity.
  split_and!; [exact Hage | exact Htags | | |].
  - exact (Hkey j [] [] m "age"%string eq_refl eq_refl Hage).
  - exact (Hbounds j [VString "tags"] [] _ 5 eq_refl Htags ltac:(by vm_compute)).
  - refine (HInt "John"%string _). done.
Defined.

(** [Int] and [convertToIndex] on the text [12]. *)
Lemma Int_agrees_with_index_witness :
  snd (convertToIndex (VString "12")) = None ∧
  Int (Valid (VString "12")) = (12, None).
Proof.
  assert (snd (convertToIndex (VString "12")) = None) as Hidx by reflexivity.
  split; [exact Hidx | exact (proj1 (Int_agrees_with_index (VString "12")) Hidx)].
Defined.

(** [Stringify] of a failed value and of its [Raw] data. *)
Lemma Stringify_of_Raw_witness :
  let failed := Get (Valid VNil) [VString "k"] in
  err failed ≠ None ∧
  Stringify (Raw failed) = ("null"%string, None) ∧
  Stringify (VJSONValue failed) = (EmptyString, err failed) ∧
  Stringify (Raw (Valid (VBool true))) = Stringify (VJSONValue (Valid (VBool true))).
Proof.
  intros failed.
  assert (err failed ≠ None) as Hfailed by done.
  destruct (proj1 (Stringify_of_Raw failed) Hfailed) as [Hraw Hvalue].
  split_and!; [exact Hfailed | exact Hraw | exact Hvalue |].
  refine (proj2 (Stringify_of_Raw (Valid (VBool true))) eq_refl _ _); done.
Defined.
